(** * contxt.cli.utils: field projection, table printing, option callbacks
      and the lazy client holder

    A shallow embedding of [src/contxt/cli/utils.py].  Python values live in
    a store of objects addressed by location; the functions of the module
    are written in a small state-and-exception monad over that store and
    the standard output.

    - A value is [None], an integer, a string, or a reference to an object
      of the store: an instance (its attribute table), a dict or a list.
      The values a row holds are the values its paths reach.  The key
      list and the item list handed to [pluck] and [print_table] are
      objects of the store like any other.
    - Strings are sequences of code points below 256.
    - An argument outside its declared type ([List[...]], [List[str]])
      raises [TypeError] where it is used.
    - [Serializer.to_table] is a parameter; [cachedproperty] and the
      service constructors are modelled from the specification. *)

From Stdlib Require Import Ascii String.
From stdpp Require Import base list strings pretty.

Local Open Scope string_scope.
Local Open Scope list_scope.

(** ** Python strings *)

Module PyStr.

(** [str.isspace] on one character, for code points below 256. *)
Definition is_space (c : ascii) : bool :=
  let n := nat_of_ascii c in
  ((9 <=? n)%nat && (n <=? 13)%nat) || ((28 <=? n)%nat && (n <=? 32)%nat)
  || (n =? 133)%nat || (n =? 160)%nat.

Fixpoint lstrip (s : string) : string :=
  match s with
  | String c s' => if is_space c then lstrip s' else s
  | EmptyString => EmptyString
  end.

Definition rstrip (s : string) : string :=
  String.rev (lstrip (String.rev s)).

(** [s.strip()] *)
Definition strip (s : string) : string := rstrip (lstrip s).

(** The scan behind [s.split(sep)] for a non-empty [sep]: [skip] counts the
    characters of a separator occurrence still to be dropped, [cur] is the
    piece read so far. *)
Fixpoint split_scan (sep s : string) (skip : nat) (cur : string) : list string :=
  match s with
  | EmptyString => [cur]
  | String c s' =>
      match skip with
      | S n => split_scan sep s' n cur
      | O =>
          if String.prefix sep s
          then cur :: split_scan sep s' (String.length sep - 1) EmptyString
          else split_scan sep s' 0 (cur +:+ String c EmptyString)
      end
  end.

(** [s.split(sep)]: [None] stands for the [ValueError] of an empty
    separator. *)
Definition split (s sep : string) : option (list string) :=
  match sep with
  | EmptyString => None
  | _ => Some (split_scan sep s 0 EmptyString)
  end.

(** [sep.join(parts)] *)
Definition join (sep : string) (parts : list string) : string :=
  String.concat sep parts.

End PyStr.

(** ** Values, objects and the store *)

(** Locations of the store. *)
Abbreviation loc := nat.

Inductive val :=
| VNone
| VInt (n : Z)
| VStr (s : string)
| VRef (l : loc).

(** The objects of the store.  An instance is its attribute table
    ([__dict__]); a dict keeps its entries in insertion order. *)
Inductive obj :=
| PyObject (attrs : list (string * val))
| PyDict (entries : list (string * val))
| PyList (elems : list val).

Global Instance val_eq_dec : EqDecision val.
Proof. solve_decision. Defined.

Global Instance obj_eq_dec : EqDecision obj.
Proof. solve_decision. Defined.

Inductive exn :=
| AttributeError (name : string)
| ValueError
| TypeError
| BadParameter (message : string)
| ConstructionError (kind : string).

Inductive outcome (A : Type) :=
| Return (a : A)
| Raise (e : exn).
Arguments Return {A} a.
Arguments Raise {A} e.

Record world := World { heap : list obj; stdout : list string }.

(** ** The monad of Python computations *)

Definition Py (A : Type) : Type := world -> outcome A * world.

Definition ret {A} (a : A) : Py A := fun w => (Return a, w).

Definition bind {A B} (m : Py A) (f : A -> Py B) : Py B :=
  fun w =>
    match m w with
    | (Return a, w') => f a w'
    | (Raise e, w') => (Raise e, w')
    end.

Notation "x <- m ;; k" := (bind m (fun x => k))
  (at level 100, m at next level, right associativity).
Notation "m ;;; k" := (bind m (fun _ => k))
  (at level 100, right associativity).

(** Lift a computation that only reads the store. *)
Definition reading {A} (f : list obj -> outcome A) : Py A :=
  fun w => (f (heap w), w).

(** A new object; its location is the next free one. *)
Definition alloc (o : obj) : Py val :=
  fun w => (Return (VRef (length (heap w))),
            World (heap w ++ [o]) (stdout w)).

(** [print(s)] *)
Definition print (s : string) : Py unit :=
  fun w => (Return tt, World (heap w) (stdout w ++ [s])).

(** [[body(x) for x in xs]], left to right, stopping at the first
    exception. *)
Fixpoint for_each {A B} (body : A -> Py B) (xs : list A) : Py (list B) :=
  match xs with
  | [] => ret []
  | x :: xs' =>
      y <- body x ;;
      ys <- for_each body xs' ;;
      ret (y :: ys)
  end.

(** ** Primitive operations on values *)

Fixpoint assoc (k : string) (es : list (string * val)) : option val :=
  match es with
  | [] => None
  | (k', v) :: es' => if String.eqb k k' then Some v else assoc k es'
  end.

(** [d[k] = v] on the entries of a dict: an existing key keeps its
    position, a new one goes last. *)
Fixpoint dict_set (k : string) (v : val) (es : list (string * val))
  : list (string * val) :=
  match es with
  | [] => [(k, v)]
  | (k', v') :: es' =>
      if String.eqb k k' then (k', v) :: es' else (k', v') :: dict_set k v es'
  end.

(** [getattr(d, k)].  Only instances carry attributes here: the methods
    of the builtin types are not data fields. *)
Definition getattr (h : list obj) (d : val) (k : string) : outcome val :=
  match d with
  | VRef l =>
      match h !! l with
      | Some (PyObject attrs) =>
          match assoc k attrs with
          | Some v => Return v
          | None => Raise (AttributeError k)
          end
      | _ => Raise (AttributeError k)
      end
  | _ => Raise (AttributeError k)
  end.

(** [reduce(f, xs, init)] for an [f] that may raise. *)
Fixpoint reduce {A B} (f : A -> B -> outcome A) (xs : list B) (init : A)
  : outcome A :=
  match xs with
  | [] => Return init
  | x :: xs' =>
      match f init x with
      | Return a => reduce f xs' a
      | Raise e => Raise e
      end
  end.

(** The elements a [for] loop draws from a value declared [List[...]].
    A value that is not a list raises [TypeError]. *)
Definition elements (h : list obj) (v : val) : outcome (list val) :=
  match v with
  | VRef l =>
      match h !! l with
      | Some (PyList xs) => Return xs
      | _ => Raise TypeError
      end
  | _ => Raise TypeError
  end.

(** ** pluck *)

(** [reduce(lambda d, k: getattr(d, k), k.split(key_sep), d)] *)
Definition resolve (h : list obj) (key_sep : string) (d : val) (k : string)
  : outcome val :=
  match PyStr.split k key_sep with
  | Some steps => reduce (getattr h) steps d
  | None => Raise ValueError
  end.

(** The dict comprehension
    [{key_func(k): reduce(...) for k in keys}], run on the entries
    gathered so far.  [keys] is declared [List[str]]: an element that is
    not a string raises [TypeError]. *)
Fixpoint dict_comp (h : list obj) (key_sep : string)
    (key_func : string -> string) (d : val) (keys : list val)
    (acc : list (string * val)) : outcome (list (string * val)) :=
  match keys with
  | [] => Return acc
  | VStr k :: keys' =>
      match resolve h key_sep d k with
      | Return v => dict_comp h key_sep key_func d keys' (dict_set (key_func k) v acc)
      | Raise e => Raise e
      end
  | _ :: _ => Raise TypeError
  end.

(** One row: iterate [keys], build the dict, allocate it. *)
Definition pluck_row (keys : val) (key_sep : string)
    (key_func : string -> string) (d : val) : Py val :=
  ks <- reading (fun h => elements h keys) ;;
  es <- reading (fun h => dict_comp h key_sep key_func d ks []) ;;
  alloc (PyDict es).

Definition pluck (keys items : val) (key_sep : string)
    (key_func : string -> string) : Py val :=
  ds <- reading (fun h => elements h items) ;;
  rows <- for_each (pluck_row keys key_sep key_func) ds ;;
  alloc (PyList rows).

(** ** print_table *)

(** Truth value of [v] in an [if]. *)
Definition truthy (h : list obj) (v : val) : bool :=
  match v with
  | VNone => false
  | VInt n => negb (Z.eqb n 0)
  | VStr s => negb (String.eqb s EmptyString)
  | VRef l =>
      match h !! l with
      | Some (PyList []) => false
      | Some (PyDict []) => false
      | _ => true
      end
  end.

(** [len(v)] *)
Definition len (h : list obj) (v : val) : outcome nat :=
  match v with
  | VNone | VInt _ => Raise TypeError
  | VStr s => Return (String.length s)
  | VRef l =>
      match h !! l with
      | Some (PyList xs) => Return (length xs)
      | Some (PyDict es) => Return (length es)
      | _ => Raise TypeError
      end
  end.

(** An [Optional[str]] argument as a value. *)
Definition of_optional (s : option string) : val :=
  match s with
  | Some x => VStr x
  | None => VNone
  end.

(** [x in keys] for [x] a string or [None] and [keys] a list. *)
Definition contains (h : list obj) (keys : val) (x : option string)
  : outcome bool :=
  match elements h keys with
  | Return xs => Return (bool_decide (of_optional x ∈ xs))
  | Raise e => Raise e
  end.

(** The first [if] of [print_table]: the items and the sort key that
    the rest of the function works with. *)
Definition restrict (items keys : val) (sort_by : option string)
  : Py (val * option string) :=
  given <- reading (fun h => Return (truthy h keys)) ;;
  if given : bool
  then
    items' <- pluck keys items "." (fun k => k) ;;
    found <- reading (fun h => contains h keys sort_by) ;;
    ret (items', if found : bool then sort_by else None)
  else ret (items, sort_by).

(** The third [if]: [print(f"Count: {len(items)}")]. *)
Definition report (count : bool) (items : val) : Py unit :=
  if count
  then
    n <- reading (fun h => len h items) ;;
    print ("Count: " +:+ pretty n)
  else ret tt.

Section PrintTable.

(** [Serializer.to_table(items, sort_by=sort_by)], of
    [contxt.utils.serializer]: it reads the store and gives the text of
    the table, or raises. *)
Variable to_table : list obj -> val -> option string -> outcome string.

(** The second [if]: [print(Serializer.to_table(items, sort_by=sort_by))]. *)
Definition render (items : val) (sort_by : option string) : Py unit :=
  nonempty <- reading (fun h => Return (truthy h items)) ;;
  if nonempty : bool
  then
    table <- reading (fun h => to_table h items sort_by) ;;
    print table
  else ret tt.

Definition print_table (items keys : val) (sort_by : option string)
    (count : bool) : Py unit :=
  shown <- restrict items keys sort_by ;;
  render (fst shown) (snd shown) ;;;
  report count (fst shown).

End PrintTable.

(** ** csv_callback and fields_option *)

(** What click hands to an option callback: the text typed by the user,
    [None] when the option is absent, or a default that is already a
    sequence. *)
Inductive param_value :=
| Text (s : string)
| Absent
| Sequence (xs : list string).

(** [all or options] *)
Definition all_or (all : option (list string)) (options : list string)
  : list string :=
  match all with
  | Some (x :: xs) => x :: xs
  | _ => options
  end.

(** The first half of [_callback], under [# Parse]. *)
Definition parse (options : list string) (all : option (list string))
    (value : param_value) : outcome (list string) :=
  match value with
  | Text s =>
      if String.eqb s "all" then Return (all_or all options)
      else
        match PyStr.split s "," with
        | Some parts => Return (map PyStr.strip parts)
        | None => Raise ValueError
        end
  | Sequence xs => Return xs
  | Absent => Raise TypeError
  end.

(** [f"'{f}' is not valid. Choose from {', '.join(options)}."] *)
Definition not_valid (f : string) (options : list string) : string :=
  "'" +:+ f +:+ "' is not valid. Choose from "
  +:+ PyStr.join ", " options +:+ ".".

(** The second half, under [# Validate]. *)
Fixpoint validate (options fields : list string) : outcome unit :=
  match fields with
  | [] => Return tt
  | f :: fields' =>
      if bool_decide (f ∈ options)
      then validate options fields'
      else Raise (BadParameter (not_valid f options))
  end.

(** [csv_callback(options, all)(ctx, param, value)].  For the value
    [None] the assignment [fields = value] succeeds and the loop over it
    raises [TypeError]. *)
Definition csv_callback (options : list string) (all : option (list string))
    (value : param_value) : outcome (list string) :=
  match parse options all value with
  | Return fields =>
      match validate options fields with
      | Return _ => Return fields
      | Raise e => Raise e
      end
  | Raise e => Raise e
  end.

(** The callback that [fields_option] installs for an object whose API
    fields have the attribute keys [attr_keys]:
    [csv_callback(options=[f.attr_key for f in obj._api_fields], all=[])]. *)
Definition fields_option (attr_keys : list string)
  : param_value -> outcome (list string) :=
  csv_callback attr_keys (Some []).

(** ** Clients *)

Module Clients.

(** The properties of the class. *)
Inductive accessor :=
| assets_ | contxt_ | ems_ | events_ | facilities_ | health_ | iot_ | sis_.

(** The service classes of [contxt.services]. *)
Inductive service :=
| AssetsService | ContxtService | EmsService | EventsService
| FacilitiesService | HealthService | IotService | SisService.

Global Instance accessor_eq_dec : EqDecision accessor.
Proof. solve_decision. Defined.

Global Instance service_eq_dec : EqDecision service.
Proof. solve_decision. Defined.

(** A [CliAuth] object, by identity. *)
Definition CliAuth := nat.

(** A constructed service client: its class and the auth object it was
    given. *)
Record client := Client { client_service : service; client_auth : CliAuth }.

(** The clients constructed so far (a client's identity is its position)
    and the number of constructor calls made. *)
Record session := Session { constructed : list client; attempts : nat }.

(** An instance of the dataclass: its [auth] field and the values its
    properties have stored. *)
Record Clients := MkClients { auth : CliAuth; cached : list (accessor * loc) }.

(** [Clients(auth)] *)
Definition new (a : CliAuth) : Clients := MkClients a [].

Fixpoint stored (name : accessor) (c : list (accessor * loc)) : option loc :=
  match c with
  | [] => None
  | (n, l) :: c' => if decide (name = n) then Some l else stored name c'
  end.

Section Collaborators.

(** [refuses cls a n] is the failure, if any, of the [n]-th constructor
    call of the session, made for class [cls] with the auth object [a]. *)
Variable refuses : service -> CliAuth -> nat -> option exn.

(** Modelled from the spec: the constructors of [contxt.services], which
    are not part of this file.  "Contract consumed is
    construct(authContext) -> ServiceClient"; the result is a new client
    bound to the auth object it was given, and "construction failures
    propagate from the underlying client constructor". *)
Definition construct (cls : service) (a : CliAuth) (s : session)
  : outcome loc * session :=
  match refuses cls a (attempts s) with
  | Some e => (Raise e, Session (constructed s) (S (attempts s)))
  | None =>
      (Return (length (constructed s)),
       Session (constructed s ++ [Client cls a]) (S (attempts s)))
  end.

(** Modelled from the spec: the decorator [cachedproperty] of
    [contxt.utils], which is not part of this file.  "First call:
    constructs ServiceClient(serviceName, authContext), stores it, returns
    it.  Subsequent calls: returns the stored instance without
    reconstruction."  A failure of the body is not caught and stores
    nothing. *)
Definition cachedproperty (name : accessor)
    (body : Clients -> session -> outcome loc * session)
    (self : Clients) (s : session) : outcome loc * (Clients * session) :=
  match stored name (cached self) with
  | Some l => (Return l, (self, s))
  | None =>
      match body self s with
      | (Return l, s') =>
          (Return l, (MkClients (auth self) ((name, l) :: cached self), s'))
      | (Raise e, s') => (Raise e, (self, s'))
      end
  end.

Definition assets :=
  cachedproperty assets_ (fun self => construct AssetsService (auth self)).

Definition contxt :=
  cachedproperty contxt_ (fun self => construct ContxtService (auth self)).

Definition ems :=
  cachedproperty ems_ (fun self => construct EmsService (auth self)).

Definition events :=
  cachedproperty events_ (fun self => construct EventsService (auth self)).

Definition facilities :=
  cachedproperty facilities_ (fun self => construct FacilitiesService (auth self)).

Definition health :=
  cachedproperty health_ (fun self => construct HealthService (auth self)).

Definition iot :=
  cachedproperty iot_ (fun self => construct IotService (auth self)).

Definition sis :=
  cachedproperty sis_ (fun self => construct SisService (auth self)).

(** Reading the property [name] of [self]. *)
Definition get (name : accessor)
  : Clients -> session -> outcome loc * (Clients * session) :=
  match name with
  | assets_ => assets
  | contxt_ => contxt
  | ems_ => ems
  | events_ => events
  | facilities_ => facilities
  | health_ => health
  | iot_ => iot
  | sis_ => sis
  end.

(** A sequence of property reads on one instance, with their outcomes. *)
Fixpoint run (names : list accessor) (self : Clients) (s : session)
  : list (outcome loc) * (Clients * session) :=
  match names with
  | [] => ([], (self, s))
  | name :: names' =>
      let '(out, (self', s')) := get name self s in
      let '(outs, final) := run names' self' s' in
      (out :: outs, final)
  end.

End Collaborators.

(** The class each property instantiates. *)
Definition service_of (name : accessor) : service :=
  match name with
  | assets_ => AssetsService
  | contxt_ => ContxtService
  | ems_ => EmsService
  | events_ => EventsService
  | facilities_ => FacilitiesService
  | health_ => HealthService
  | iot_ => IotService
  | sis_ => SisService
  end.

(** What holds of an instance made with [auth = a] in session [s0], after
    any number of property reads; [built] lists the clients constructed
    since. *)
Record consistent (a : CliAuth) (s0 : session)
    (self : Clients) (s : session) (built : list client) : Prop :=
  Consistent {
    same_auth : auth self = a;
    since : constructed s = constructed s0 ++ built;
    built_auth : Forall (fun c => client_auth c = a) built;
    built_once : NoDup (map client_service built);
    stored_client : forall name l,
        stored name (cached self) = Some l ->
        constructed s !! l = Some (Client (service_of name) a);
    built_stored : forall c,
        c ∈ built ->
        exists name, client_service c = service_of name /\
                     is_Some (stored name (cached self))
  }.

End Clients.

(** ** Reading results back *)

(** The entries of the dict a value refers to. *)
Definition read_dict (h : list obj) (v : val) : option (list (string * val)) :=
  match v with
  | VRef l =>
      match h !! l with
      | Some (PyDict es) => Some es
      | _ => None
      end
  | _ => None
  end.

Fixpoint read_dicts (h : list obj) (vs : list val)
  : option (list (list (string * val))) :=
  match vs with
  | [] => Some []
  | v :: vs' =>
      match read_dict h v, read_dicts h vs' with
      | Some es, Some ess => Some (es :: ess)
      | _, _ => None
      end
  end.

(** The contents of a list of dicts, as [==] sees it. *)
Definition read_rows (h : list obj) (v : val)
  : option (list (list (string * val))) :=
  match elements h v with
  | Return vs => read_dicts h vs
  | Raise _ => None
  end.

(** ** What one call of [pluck] computes, as a function of the store it
    starts in *)

(** The entries of the row of [d]. *)
Definition project (h : list obj) (keys : val) (key_sep : string)
    (key_func : string -> string) (d : val) : outcome (list (string * val)) :=
  match elements h keys with
  | Return ks => dict_comp h key_sep key_func d ks []
  | Raise e => Raise e
  end.

(** The rows gathered before the first exception, and that exception. *)
Fixpoint gather (h : list obj) (keys : val) (key_sep : string)
    (key_func : string -> string) (ds : list val)
  : list (list (string * val)) * option exn :=
  match ds with
  | [] => ([], None)
  | d :: ds' =>
      match project h keys key_sep key_func d with
      | Return es =>
          let '(rows, stop) := gather h keys key_sep key_func ds' in
          (es :: rows, stop)
      | Raise e => ([], Some e)
      end
  end.

(** ** Plain tokens *)

(** A character that is neither whitespace nor a comma. *)
Definition plain_char (c : ascii) : bool :=
  negb (PyStr.is_space c) && negb (Ascii.eqb c ",").

(** A token made of such characters only, as an attribute key is. *)
Fixpoint plain (f : string) : bool :=
  match f with
  | EmptyString => true
  | String c f' => plain_char c && plain f'
  end.

(** ** Sample stores *)

Module Sample.

(** One company with a nested address, the key list
    [["name", "address.city"]] and the item list. *)
Definition acme : world :=
  World [ PyObject [("city", VStr "Austin")];
          PyObject [("name", VStr "Acme"); ("address", VRef 0)];
          PyList [VStr "name"; VStr "address.city"];
          PyList [VRef 1] ] [].

(** The same company asked for [["name", "address.zip"]]. *)
Definition acme_zip : world :=
  World [ PyObject [("city", VStr "Austin")];
          PyObject [("name", VStr "Acme"); ("address", VRef 0)];
          PyList [VStr "name"; VStr "address.zip"];
          PyList [VRef 1] ] [].

(** A shipment with two addresses, asked for
    [["origin.city", "target.city"]]. *)
Definition shipment : world :=
  World [ PyObject [("city", VStr "Austin")];
          PyObject [("city", VStr "Boston")];
          PyObject [("origin", VRef 0); ("target", VRef 1)];
          PyList [VStr "origin.city"; VStr "target.city"];
          PyList [VRef 2] ] [].

(** [lambda k: k.split(".")[-1]], a [key_func] that strips the prefix. *)
Definition last_segment (k : string) : string :=
  match PyStr.split k "." with
  | Some parts => List.last parts k
  | None => k
  end.

(** One company, an empty key list and the item list. *)
Definition acme_no_keys : world :=
  World [ PyObject [("name", VStr "Acme"); ("zip", VStr "78701")];
          PyList [];
          PyList [VRef 0] ] [].

(** One company, the key list [["name", "city"]] and the item list. *)
Definition acme_flat : world :=
  World [ PyObject [("id", VInt 7); ("name", VStr "Acme");
                    ("city", VStr "Austin"); ("zip", VStr "78701")];
          PyList [VStr "name"; VStr "city"];
          PyList [VRef 0] ] [].

(** A renderer that names the sort key it was given. *)
Definition sorted_by (h : list obj) (items : val) (sort_by : option string)
  : outcome string :=
  Return match sort_by with
         | Some k => "table sorted by " +:+ k
         | None => "table"
         end.

End Sample.

(** * Properties *)

(** ** The string primitives on Python's own examples *)

Example split_on_dot :
  PyStr.split "address.city" "." = Some ["address"; "city"]
  /\ PyStr.split "name" "." = Some ["name"]
  /\ PyStr.split "a..b." "." = Some ["a"; ""; "b"; ""]
  /\ PyStr.split "" "." = Some [""]
  /\ PyStr.split "a, b" "," = Some ["a"; " b"]
  /\ PyStr.split "a::b::c" "::" = Some ["a"; "b"; "c"]
  /\ PyStr.split "aaa" "aa" = Some [""; "a"]
  /\ PyStr.split "a.b" "" = None.
Proof. repeat split. Qed.

Example strip_whitespace :
  map PyStr.strip ["a"; " b"; "  a b  "; "   "; ""] = ["a"; "b"; "a b"; ""; ""].
Proof. reflexivity. Qed.

Example dict_set_keeps_position :
  dict_set "a" (VStr "3") [("a", VStr "1"); ("b", VStr "2")]
  = [("a", VStr "3"); ("b", VStr "2")]
  /\ dict_set "c" (VStr "3") [("a", VStr "1"); ("b", VStr "2")]
    = [("a", VStr "1"); ("b", VStr "2"); ("c", VStr "3")].
Proof. split; reflexivity. Qed.

Example count_line : "Count: " +:+ pretty 12 = "Count: 12".
Proof. reflexivity. Qed.

(** ** Splitting and joining *)

Lemma str_app_cons x (a b : string) : String x a +:+ b = String x (a +:+ b).
Proof. reflexivity. Qed.

Lemma split_scan_skip sep pre s cur :
  PyStr.split_scan sep (pre +:+ s) (String.length pre) cur = PyStr.split_scan sep s 0 cur.
Proof.
  induction pre as [|c pre IH]; [by destruct s|].
  rewrite str_app_cons. exact IH.
Qed.

Lemma str_prefix_app sep s : String.prefix sep s = true -> exists rest, s = sep +:+ rest.
Proof.
  revert s. induction sep as [|c sep IH]; intros s.
  - by exists s.
  - destruct s as [|c' s]; simpl; [discriminate|].
    destruct (ascii_dec c c') as [<-|]; [|discriminate].
    intros Hp. destruct (IH s Hp) as [rest Hrest]. exists rest. by subst s.
Qed.

Lemma str_length_app (a b : string) :
  String.length (a +:+ b) = String.length a + String.length b.
Proof.
  induction a as [|c a IH]; [done|]. rewrite str_app_cons. simpl. by rewrite IH.
Qed.

Lemma split_scan_nonempty sep s skip cur : PyStr.split_scan sep s skip cur <> [].
Proof.
  revert skip cur. induction s as [|c s IH]; intros skip cur; cbn [PyStr.split_scan];
    [discriminate|].
  destruct skip; [|apply IH].
  destruct (String.prefix sep (String c s)); [discriminate | apply IH].
Qed.

Lemma str_concat_cons sep x xs : xs <> [] -> String.concat sep (x :: xs) = x +:+ sep +:+ String.concat sep xs.
Proof. by destruct xs. Qed.

Lemma str_app_assoc (a b c : string) : (a +:+ b) +:+ c = a +:+ (b +:+ c).
Proof. induction a as [|x a IH]; [done|]. rewrite !str_app_cons. by f_equal. Qed.

Lemma str_app_empty (a : string) : a +:+ "" = a.
Proof. induction a as [|x a IH]; [done|]. rewrite !str_app_cons. by f_equal. Qed.

Lemma split_scan_join sep n :
  sep <> "" ->
  forall s cur, String.length s <= n ->
    String.concat sep (PyStr.split_scan sep s 0 cur) = cur +:+ s.
Proof.
  intros Hsep. induction n as [|n IH]; intros s cur Hn.
  - destruct s; [|simpl in Hn; lia]. simpl. by rewrite str_app_empty.
  - destruct s as [|c s]; [simpl; by rewrite str_app_empty|].
    simpl in Hn. cbn [PyStr.split_scan].
    destruct (String.prefix sep (String c s)) eqn:Hp.
    + destruct sep as [|c0 sep]; [done|].
      apply str_prefix_app in Hp as [rest Hrest]. rewrite str_app_cons in Hrest.
      injection Hrest as <- ->.
      replace (String.length (String c sep) - 1) with (String.length sep)
        by (simpl; lia).
      rewrite split_scan_skip.
      rewrite str_concat_cons by apply split_scan_nonempty.
      rewrite IH; [reflexivity|].
      rewrite str_length_app in Hn. lia.
    + rewrite IH by lia. rewrite str_app_assoc. by rewrite str_app_cons.
Qed.

(** Joining the pieces of a split with the separator gives the string
    back. *)
Lemma split_join s sep parts :
  PyStr.split s sep = Some parts -> PyStr.join sep parts = s.
Proof.
  unfold PyStr.split, PyStr.join. destruct sep as [|c sep]; [discriminate|].
  intros [= <-]. by apply (split_scan_join _ (String.length s)).
Qed.

(** [map] as stdpp's [fmap], for its lemmas. *)
Ltac as_fmap :=
  repeat match goal with
  | |- context [map ?f ?l] => change (map f l) with (f <$> l)
  | H : context [map ?f ?l] |- _ => change (map f l) with (f <$> l) in H
  end.

(** ** The store only grows *)

(** Looking behind the rows that a call has allocated so far. *)
Lemma lookup_behind_rows (h : list obj) (rows : list (list (string * val)))
    (l : nat) (o : obj) :
  (h ++ map PyDict rows) !! l = Some o ->
  h !! l = Some o \/ (h !! l = None /\ exists es, o = PyDict es).
Proof.
  intros Hl. destruct (decide (l < length h)) as [Hlt|Hge].
  - left. by rewrite lookup_app_l in Hl.
  - right. split; [apply lookup_ge_None_2; lia|].
    rewrite lookup_app_r in Hl by lia.
    change (map PyDict rows) with (PyDict <$> rows) in Hl.
    apply list_lookup_fmap_Some in Hl as (es & -> & _). by exists es.
Qed.

Lemma getattr_behind_rows h rows d k :
  getattr (h ++ map PyDict rows) d k = getattr h d k.
Proof.
  unfold getattr. destruct d as [| | |l]; try reflexivity.
  destruct ((h ++ map PyDict rows) !! l) as [o|] eqn:Hl.
  - apply lookup_behind_rows in Hl as [->|[-> [es ->]]]; reflexivity.
  - apply lookup_ge_None_1 in Hl. rewrite length_app in Hl.
    rewrite (lookup_ge_None_2 h l) by lia. reflexivity.
Qed.

Lemma elements_behind_rows h rows v :
  elements (h ++ map PyDict rows) v = elements h v.
Proof.
  unfold elements. destruct v as [| | |l]; try reflexivity.
  destruct ((h ++ map PyDict rows) !! l) as [o|] eqn:Hl.
  - apply lookup_behind_rows in Hl as [->|[-> [es ->]]]; reflexivity.
  - apply lookup_ge_None_1 in Hl. rewrite length_app in Hl.
    rewrite (lookup_ge_None_2 h l) by lia. reflexivity.
Qed.

Lemma reduce_ext {A B} (f g : A -> B -> outcome A) xs init :
  (forall a b, f a b = g a b) -> reduce f xs init = reduce g xs init.
Proof.
  intros Hfg. revert init. induction xs as [|x xs IH]; intros init; simpl.
  - reflexivity.
  - rewrite Hfg. destruct (g init x); [apply IH | reflexivity].
Qed.

Lemma resolve_behind_rows h rows sep d k :
  resolve (h ++ map PyDict rows) sep d k = resolve h sep d k.
Proof.
  unfold resolve. destruct (PyStr.split k sep); [|reflexivity].
  apply reduce_ext. intros a b. apply getattr_behind_rows.
Qed.

Lemma dict_comp_behind_rows h rows sep kf d ks acc :
  dict_comp (h ++ map PyDict rows) sep kf d ks acc = dict_comp h sep kf d ks acc.
Proof.
  revert acc. induction ks as [|k ks IH]; intros acc; simpl; [reflexivity|].
  destruct k as [|n|s|l]; try reflexivity.
  rewrite resolve_behind_rows. destruct (resolve h sep d s); [apply IH | reflexivity].
Qed.

Lemma project_behind_rows h rows keys sep kf d :
  project (h ++ map PyDict rows) keys sep kf d = project h keys sep kf d.
Proof.
  unfold project. rewrite elements_behind_rows.
  destruct (elements h keys); [apply dict_comp_behind_rows | reflexivity].
Qed.

(** ** Running [pluck] *)

Lemma pluck_row_run keys sep kf d w :
  pluck_row keys sep kf d w =
  match project (heap w) keys sep kf d with
  | Return es =>
      (Return (VRef (length (heap w))), World (heap w ++ [PyDict es]) (stdout w))
  | Raise e => (Raise e, w)
  end.
Proof.
  unfold pluck_row, project, bind, reading, alloc.
  destruct (elements (heap w) keys) as [ks|e]; [|reflexivity].
  destruct (dict_comp (heap w) sep kf d ks []); reflexivity.
Qed.

Lemma for_each_pluck_row_run keys sep kf ds :
  forall h pre out,
    for_each (pluck_row keys sep kf) ds (World (h ++ map PyDict pre) out) =
    let '(rows, stop) := gather h keys sep kf ds in
    (match stop with
     | None => Return (map VRef (seq (length h + length pre) (length rows)))
     | Some e => Raise e
     end,
     World (h ++ map PyDict (pre ++ rows)) out).
Proof.
  induction ds as [|d ds IH]; intros h pre out; simpl.
  - by rewrite app_nil_r.
  - unfold bind at 1. rewrite pluck_row_run. simpl.
    rewrite project_behind_rows.
    destruct (project h keys sep kf d) as [es|e].
    + rewrite <- app_assoc. change [PyDict es] with (map PyDict [es]).
      rewrite <- map_app. unfold bind at 1. rewrite IH.
      destruct (gather h keys sep kf ds) as [rows stop].
      rewrite <- app_assoc. simpl.
      destruct stop as [e|]; [reflexivity|].
      unfold ret. rewrite !length_app, length_map. simpl.
      by replace (length h + (length pre + 1)) with (S (length h + length pre)) by lia.
    + by rewrite app_nil_r.
Qed.

(** One call of [pluck], in full: the outcome, the rows allocated and the
    list that holds them. *)
Lemma pluck_run keys items sep kf w :
  pluck keys items sep kf w =
  match elements (heap w) items with
  | Raise e => (Raise e, w)
  | Return ds =>
      let '(rows, stop) := gather (heap w) keys sep kf ds in
      match stop with
      | Some e => (Raise e, World (heap w ++ map PyDict rows) (stdout w))
      | None =>
          (Return (VRef (length (heap w) + length rows)),
           World (heap w ++ map PyDict rows
                    ++ [PyList (map VRef (seq (length (heap w)) (length rows)))])
                 (stdout w))
      end
  end.
Proof.
  unfold pluck. unfold bind at 1. unfold reading at 1.
  destruct (elements (heap w) items) as [ds|e]; [|reflexivity].
  unfold bind. destruct w as [h out]. simpl.
  pose proof (for_each_pluck_row_run keys sep kf ds h [] out) as Hrun.
  simpl in Hrun. rewrite app_nil_r in Hrun. rewrite Hrun.
  destruct (gather h keys sep kf ds) as [rows stop].
  destruct stop as [e|]; [reflexivity|].
  unfold alloc. simpl. rewrite length_app, length_map, Nat.add_0_r.
  rewrite <- app_assoc. reflexivity.
Qed.

(** ** Dict entries *)

Lemma assoc_dict_set_eq k v es : assoc k (dict_set k v es) = Some v.
Proof.
  induction es as [|[k' v'] es IH]; simpl.
  - by rewrite String.eqb_refl.
  - destruct (String.eqb k k') eqn:E; simpl; rewrite E; [reflexivity | apply IH].
Qed.

Lemma assoc_dict_set_ne k k' v es :
  k <> k' -> assoc k' (dict_set k v es) = assoc k' es.
Proof.
  intros Hne. induction es as [|[k1 v1] es IH]; simpl.
  - apply String.eqb_neq in Hne. rewrite String.eqb_sym in Hne. by rewrite Hne.
  - destruct (String.eqb k k1) eqn:E; simpl.
    + apply String.eqb_eq in E as <-.
      assert (String.eqb k' k = false) as -> by (apply String.eqb_neq; congruence).
      reflexivity.
    + destruct (String.eqb k' k1); [reflexivity | apply IH].
Qed.

Lemma dict_set_keys k v es :
  map fst (dict_set k v es) =
  if bool_decide (k ∈ map fst es) then map fst es else map fst es ++ [k].
Proof.
  induction es as [|[k' v'] es IH]; simpl.
  - reflexivity.
  - destruct (String.eqb k k') eqn:E; simpl.
    + apply String.eqb_eq in E as ->.
      rewrite bool_decide_eq_true_2 by apply list_elem_of_here. reflexivity.
    + apply String.eqb_neq in E. rewrite IH.
      destruct (bool_decide (k ∈ map fst es)) eqn:B.
      * apply bool_decide_eq_true_1 in B.
        rewrite bool_decide_eq_true_2 by (by apply list_elem_of_further).
        reflexivity.
      * apply bool_decide_eq_false_1 in B.
        rewrite bool_decide_eq_false_2; [reflexivity|].
        intros [?|?]%elem_of_cons; congruence.
Qed.

Lemma dict_set_elem k v es key :
  key ∈ map fst (dict_set k v es) <-> key = k \/ key ∈ map fst es.
Proof.
  rewrite dict_set_keys. case_bool_decide as B.
  - split; [by right|]. by intros [->|?].
  - rewrite elem_of_app, list_elem_of_singleton. tauto.
Qed.

(** ** The dict comprehension *)

Lemma dict_comp_cons h sep kf d k ks acc :
  dict_comp h sep kf d (VStr k :: ks) acc =
  match resolve h sep d k with
  | Return v => dict_comp h sep kf d ks (dict_set (kf k) v acc)
  | Raise e => Raise e
  end.
Proof. reflexivity. Qed.

(** It returns as soon as every path resolves. *)
Lemma dict_comp_returns h sep kf d ks :
  (forall k, k ∈ ks -> exists v, resolve h sep d k = Return v) ->
  forall acc, exists es, dict_comp h sep kf d (map VStr ks) acc = Return es.
Proof.
  induction ks as [|k ks IH]; intros Hall acc; simpl.
  - by exists acc.
  - destruct (Hall k) as [v ->]; [apply list_elem_of_here|].
    apply IH. intros k' Hk'. apply Hall. by apply list_elem_of_further.
Qed.

(** A path that does not resolve makes it raise, and what it raises with
    a usable separator is an [AttributeError]. *)
Lemma dict_comp_raises h sep kf d ks :
  (exists k e, k ∈ ks /\ resolve h sep d k = Raise e) ->
  forall acc, exists e, dict_comp h sep kf d (map VStr ks) acc = Raise e.
Proof.
  induction ks as [|k ks IH]; intros (k0 & e0 & Hin & Hk0) acc; simpl.
  - by apply elem_of_nil in Hin.
  - destruct (resolve h sep d k) as [v|e] eqn:Hk; [|by exists e].
    apply IH. exists k0, e0. split; [|done].
    apply elem_of_cons in Hin as [->|?]; [congruence | done].
Qed.

Lemma dict_comp_keys h sep kf d ks :
  forall acc es,
    dict_comp h sep kf d (map VStr ks) acc = Return es ->
    forall key, key ∈ map fst es <-> key ∈ map fst acc \/ key ∈ map kf ks.
Proof.
  induction ks as [|k ks IH]; intros acc es Hes key; simpl in *.
  - injection Hes as <-. rewrite elem_of_nil. tauto.
  - destruct (resolve h sep d k) as [v|e]; [|discriminate].
    rewrite (IH _ _ Hes), dict_set_elem, elem_of_cons. tauto.
Qed.

Lemma dict_comp_other h sep kf d ks :
  forall acc es key,
    dict_comp h sep kf d (map VStr ks) acc = Return es ->
    key ∉ map kf ks ->
    assoc key es = assoc key acc.
Proof.
  induction ks as [|k ks IH]; intros acc es key Hes Hkey; simpl in *.
  - by injection Hes as <-.
  - destruct (resolve h sep d k) as [v|e]; [|discriminate].
    rewrite (IH _ _ _ Hes).
    + apply assoc_dict_set_ne. intros Heq. subst key. apply Hkey, list_elem_of_here.
    + intros Hin. apply Hkey. by apply list_elem_of_further.
Qed.

(** The value kept under [key_func k] is that of the last key
    transformed to that name. *)
Lemma dict_comp_last h sep kf d before k after :
  forall acc es,
    dict_comp h sep kf d (map VStr (before ++ k :: after)) acc = Return es ->
    kf k ∉ map kf after ->
    exists v, resolve h sep d k = Return v /\ assoc (kf k) es = Some v.
Proof.
  induction before as [|k0 before IH]; intros acc es Hes Hlast; simpl in Hes.
  - destruct (resolve h sep d k) as [v|e] eqn:Hk; [|discriminate].
    exists v. split; [done|].
    rewrite (dict_comp_other _ _ _ _ _ _ _ _ Hes Hlast).
    apply assoc_dict_set_eq.
  - destruct (resolve h sep d k0) as [v0|e]; [|discriminate].
    by apply (IH _ _ Hes).
Qed.

(** With distinct transformed names the row lists them in the order of
    [keys]. *)
Lemma dict_comp_order h sep kf d ks :
  forall acc es,
    dict_comp h sep kf d (map VStr ks) acc = Return es ->
    NoDup (map fst acc ++ map kf ks) ->
    map fst es = map fst acc ++ map kf ks.
Proof.
  induction ks as [|k ks IH]; intros acc es Hes Hnd; simpl in *.
  - injection Hes as <-. by rewrite app_nil_r.
  - destruct (resolve h sep d k) as [v|e]; [|discriminate].
    assert (kf k ∉ map fst acc) as Hfresh.
    { apply NoDup_app in Hnd as (_ & Hdisj & _). intros Hin.
      apply (Hdisj _ Hin), list_elem_of_here. }
    assert (map fst (dict_set (kf k) v acc) = map fst acc ++ [kf k]) as Hset.
    { rewrite dict_set_keys. by rewrite bool_decide_eq_false_2. }
    rewrite (IH _ _ Hes); rewrite Hset, <- app_assoc; [done|].
    simpl. done.
Qed.

(** ** What [gather] collects *)

Lemma project_listed h keys ks sep kf d :
  elements h keys = Return (map VStr ks) ->
  project h keys sep kf d = dict_comp h sep kf d (map VStr ks) [].
Proof. intros Hk. unfold project. by rewrite Hk. Qed.

Lemma gather_done h keys sep kf ds rows :
  gather h keys sep kf ds = (rows, None) ->
  Forall2 (fun d es => project h keys sep kf d = Return es) ds rows.
Proof.
  revert rows. induction ds as [|d ds IH]; intros rows Hg; simpl in Hg.
  - injection Hg as <-. constructor.
  - destruct (project h keys sep kf d) as [es|e] eqn:Hd; [|discriminate].
    destruct (gather h keys sep kf ds) as [rows' stop].
    injection Hg as <- ->. constructor; [done | by apply IH].
Qed.

Lemma gather_stopped h keys sep kf ds rows e :
  gather h keys sep kf ds = (rows, Some e) ->
  exists before d after,
    ds = before ++ d :: after /\
    Forall2 (fun d es => project h keys sep kf d = Return es) before rows /\
    project h keys sep kf d = Raise e.
Proof.
  revert rows. induction ds as [|d ds IH]; intros rows Hg; simpl in Hg.
  - discriminate.
  - destruct (project h keys sep kf d) as [es|e'] eqn:Hd.
    + destruct (gather h keys sep kf ds) as [rows' stop].
      injection Hg as <- ->.
      destruct (IH rows' eq_refl) as (before & d' & after & -> & Hb & Hd').
      exists (d :: before), d', after. repeat split; [by constructor | done].
    + injection Hg as <- <-. exists [], d, ds. repeat split; [constructor | done].
Qed.

Lemma gather_all h keys sep kf ds :
  (forall d, d ∈ ds -> exists es, project h keys sep kf d = Return es) ->
  exists rows, gather h keys sep kf ds = (rows, None).
Proof.
  induction ds as [|d ds IH]; intros Hall; simpl.
  - by exists [].
  - destruct (Hall d) as [es ->]; [apply list_elem_of_here|].
    destruct IH as [rows ->].
    { intros d' Hd'. apply Hall. by apply list_elem_of_further. }
    by exists (es :: rows).
Qed.

Lemma gather_some h keys sep kf ds :
  (exists d e, d ∈ ds /\ project h keys sep kf d = Raise e) ->
  exists rows e, gather h keys sep kf ds = (rows, Some e).
Proof.
  induction ds as [|d ds IH]; intros (d0 & e0 & Hin & Hd0); simpl.
  - by apply elem_of_nil in Hin.
  - destruct (project h keys sep kf d) as [es|e] eqn:Hd; [|by exists [], e].
    destruct IH as (rows & e & ->).
    { exists d0, e0. split; [|done].
      apply elem_of_cons in Hin as [->|?]; [congruence | done]. }
    by exists (es :: rows), e.
Qed.

(** ** Reading the rows back *)

Lemma read_dicts_fresh rows :
  forall h rest,
    read_dicts (h ++ map PyDict rows ++ rest)
               (map VRef (seq (length h) (length rows))) = Some rows.
Proof.
  induction rows as [|es rows IH]; intros h rest; simpl; [reflexivity|].
  rewrite lookup_app_r by lia. rewrite Nat.sub_diag. simpl.
  specialize (IH (h ++ [PyDict es]) rest).
  rewrite <- app_assoc, length_app in IH. simpl in IH.
  rewrite Nat.add_1_r in IH. by rewrite IH.
Qed.

Lemma read_rows_fresh h rows :
  read_rows (h ++ map PyDict rows ++ [PyList (map VRef (seq (length h) (length rows)))])
            (VRef (length h + length rows)) = Some rows.
Proof.
  unfold read_rows, elements.
  rewrite app_assoc, lookup_app_r by (rewrite length_app, length_map; lia).
  rewrite length_app, length_map, Nat.sub_diag. simpl.
  rewrite <- app_assoc. apply read_dicts_fresh.
Qed.

(** ** [pluck] on well-formed arguments *)

Lemma pluck_returns w keys items ks ds sep kf :
  elements (heap w) keys = Return (map VStr ks) ->
  elements (heap w) items = Return ds ->
  (forall d k, d ∈ ds -> k ∈ ks -> exists v, resolve (heap w) sep d k = Return v) ->
  exists rows,
    Forall2 (fun d es => dict_comp (heap w) sep kf d (map VStr ks) [] = Return es)
            ds rows /\
    pluck keys items sep kf w =
    (Return (VRef (length (heap w) + length rows)),
     World (heap w ++ map PyDict rows
              ++ [PyList (map VRef (seq (length (heap w)) (length rows)))])
           (stdout w)).
Proof.
  intros Hkeys Hitems Hall.
  destruct (gather_all (heap w) keys sep kf ds) as [rows Hg].
  { intros d Hd. rewrite (project_listed _ _ ks) by done.
    apply dict_comp_returns. intros k Hk. by apply Hall. }
  exists rows. split.
  - apply gather_done in Hg.
    eapply Forall2_impl; [exact Hg|]. intros d es Hd. cbv beta in Hd.
    by rewrite (project_listed _ _ ks) in Hd.
  - rewrite pluck_run, Hitems, Hg. reflexivity.
Qed.

(** C2: when every path resolves on every item, [pluck] returns one row
    per item, in the order of the items, and the keys of each row are
    exactly the transformed keys; on an empty item list it returns an
    empty list whatever the keys are. *)
Theorem pluck_one_row_per_item :
  (forall w keys items ks ds sep kf,
      elements (heap w) keys = Return (map VStr ks) ->
      elements (heap w) items = Return ds ->
      (forall d k, d ∈ ds -> k ∈ ks ->
                   exists v, resolve (heap w) sep d k = Return v) ->
      exists r w' rows,
        pluck keys items sep kf w = (Return r, w') /\
        read_rows (heap w') r = Some rows /\
        length rows = length ds /\
        Forall2 (fun d es => project (heap w) keys sep kf d = Return es) ds rows /\
        Forall (fun es => forall key, key ∈ map fst es <-> key ∈ map kf ks) rows)
  /\
  (forall w keys items sep kf,
      elements (heap w) items = Return [] ->
      exists r w',
        pluck keys items sep kf w = (Return r, w') /\
        read_rows (heap w') r = Some []).
Proof.
  split.
  - intros w keys items ks ds sep kf Hkeys Hitems Hall.
    destruct (pluck_returns w keys items ks ds sep kf Hkeys Hitems Hall)
      as (rows & Hrows & Hrun).
    eexists _, _, rows. split; [exact Hrun|]. simpl.
    split; [apply read_rows_fresh|].
    split; [symmetry; by eapply Forall2_length|].
    split.
    + eapply Forall2_impl; [exact Hrows|]. intros d es Hd. cbv beta in Hd.
      by rewrite (project_listed _ _ ks).
    + apply Forall_forall. intros es Hes.
      apply list_elem_of_lookup in Hes as [i Hi].
      destruct (Forall2_lookup_r _ _ _ _ _ Hrows Hi) as (d & _ & Hd).
      intros key. rewrite (dict_comp_keys _ _ _ _ _ _ _ Hd). simpl.
      rewrite elem_of_nil. tauto.
  - intros w keys items sep kf Hitems.
    eexists _, _. rewrite pluck_run, Hitems. simpl. split; [reflexivity|].
    rewrite Nat.add_0_r. unfold read_rows, elements. simpl.
    rewrite lookup_app_r by lia. by rewrite Nat.sub_diag.
Qed.

Lemma pluck_one_row_per_item_witness :
  exists r w' rows,
    pluck (VRef 2) (VRef 3) "." (fun k => k) Sample.acme = (Return r, w') /\
    read_rows (heap w') r = Some rows /\
    length rows = 1 /\
    Forall2 (fun d es => project (heap Sample.acme) (VRef 2) "." (fun k => k) d
                         = Return es) [VRef 1] rows /\
    Forall (fun es => forall key,
                key ∈ map fst es <-> key ∈ ["name"; "address.city"]) rows.
Proof.
  apply (proj1 pluck_one_row_per_item Sample.acme (VRef 2) (VRef 3)
           ["name"; "address.city"] [VRef 1] "." (fun k => k)).
  - reflexivity.
  - reflexivity.
  - intros d k Hd Hk.
    apply list_elem_of_singleton in Hd as ->.
    apply elem_of_cons in Hk as [->|Hk]; [eexists; reflexivity|].
    apply list_elem_of_singleton in Hk as ->. eexists; reflexivity.
Defined.

(** C1, as amended: when every path resolves, the row of each item
    holds, under [key_func k] for every key [k] that is the last of
    [keys] transformed to that name, the value reached by splitting [k]
    on [key_sep] and folding [getattr] over the pieces from the item;
    when the transformed names are pairwise distinct that is every key,
    and the keys of each row are those names in the order of [keys]; and
    the company "Acme" in "Austin" gives
    [[{"name": "Acme", "address.city": "Austin"}]]. *)
Theorem pluck_row_values :
  (forall w keys items ks ds sep kf,
      elements (heap w) keys = Return (map VStr ks) ->
      elements (heap w) items = Return ds ->
      (forall d k, d ∈ ds -> k ∈ ks ->
                   exists v, resolve (heap w) sep d k = Return v) ->
      exists r w' rows,
        pluck keys items sep kf w = (Return r, w') /\
        read_rows (heap w') r = Some rows /\
        Forall2
          (fun d es =>
             (forall before k after,
                ks = before ++ k :: after ->
                kf k ∉ map kf after ->
                exists steps v,
                  PyStr.split k sep = Some steps /\
                  reduce (getattr (heap w)) steps d = Return v /\
                  assoc (kf k) es = Some v) /\
             (NoDup (map kf ks) -> map fst es = map kf ks))
          ds rows)
  /\
  (exists r w',
      pluck (VRef 2) (VRef 3) "." (fun k => k) Sample.acme = (Return r, w') /\
      read_rows (heap w') r
      = Some [[("name", VStr "Acme"); ("address.city", VStr "Austin")]]).
Proof.
  split.
  - intros w keys items ks ds sep kf Hkeys Hitems Hall.
    destruct (pluck_returns w keys items ks ds sep kf Hkeys Hitems Hall)
      as (rows & Hrows & Hrun).
    eexists _, _, rows. split; [exact Hrun|]. simpl.
    split; [apply read_rows_fresh|].
    eapply Forall2_impl; [exact Hrows|]. intros d es Hd. cbv beta in Hd.
    split.
    + intros before k after -> Hlast.
      destruct (dict_comp_last _ _ _ _ _ _ _ _ _ Hd Hlast) as (v & Hv & Hes).
      unfold resolve in Hv.
      destruct (PyStr.split k sep) as [steps|]; [|discriminate].
      by exists steps, v.
    + intros Hnd. by apply (dict_comp_order _ _ _ _ _ _ _ Hd).
  - eexists _, _. split; reflexivity.
Qed.

Lemma pluck_row_values_witness :
  exists r w' rows,
    pluck (VRef 2) (VRef 3) "." (fun k => k) Sample.acme = (Return r, w') /\
    read_rows (heap w') r = Some rows /\
    Forall2
      (fun d es =>
         (forall before k after,
            ["name"; "address.city"] = before ++ k :: after ->
            k ∉ map (fun k => k) after ->
            exists steps v,
              PyStr.split k "." = Some steps /\
              reduce (getattr (heap Sample.acme)) steps d = Return v /\
              assoc k es = Some v) /\
         (NoDup (map (fun k => k) ["name"; "address.city"]) ->
          map fst es = map (fun k => k) ["name"; "address.city"]))
      [VRef 1] rows.
Proof.
  apply (proj1 pluck_row_values Sample.acme (VRef 2) (VRef 3)
           ["name"; "address.city"] [VRef 1] "." (fun k => k)).
  - reflexivity.
  - reflexivity.
  - intros d k Hd Hk.
    apply list_elem_of_singleton in Hd as ->.
    apply elem_of_cons in Hk as [->|Hk]; [eexists; reflexivity|].
    apply list_elem_of_singleton in Hk as ->. eexists; reflexivity.
Defined.

(** C1, as stated, fails when [key_func] sends two keys to one name: the
    shipment's row holds under ["city"] the city of the target, not the
    one reached from ["origin.city"]. *)
Lemma pluck_value_overwritten :
  exists r w' es,
    pluck (VRef 3) (VRef 4) "." Sample.last_segment Sample.shipment
    = (Return r, w') /\
    read_rows (heap w') r = Some [es] /\
    "origin.city" ∈ ["origin.city"; "target.city"] /\
    resolve (heap Sample.shipment) "." (VRef 2) "origin.city"
    = Return (VStr "Austin") /\
    assoc (Sample.last_segment "origin.city") es = Some (VStr "Boston").
Proof.
  eexists _, _, _. split; [reflexivity|]. split; [reflexivity|].
  split; [apply list_elem_of_here|]. split; reflexivity.
Qed.

(** ** Failure *)

Lemma reduce_getattr_raises h steps :
  forall d e, reduce (getattr h) steps d = Raise e ->
              exists name, e = AttributeError name.
Proof.
  induction steps as [|step steps IH]; intros d e Hr; simpl in Hr.
  - discriminate.
  - destruct (getattr h d step) as [v|e'] eqn:Hg; [by apply (IH v)|].
    injection Hr as <-. unfold getattr in Hg.
    destruct d as [| | |l]; try (injection Hg as <-; by eexists).
    destruct (h !! l) as [[attrs|es|xs]|]; try (injection Hg as <-; by eexists).
    destruct (assoc step attrs); [discriminate|]. injection Hg as <-. by eexists.
Qed.

Lemma split_usable k sep steps :
  PyStr.split k sep = Some steps ->
  forall k', exists steps', PyStr.split k' sep = Some steps'.
Proof.
  unfold PyStr.split. destruct sep; [discriminate|]. intros _ k'. by eexists.
Qed.

Lemma dict_comp_raises_attribute h sep kf d ks :
  (forall k, exists steps, PyStr.split k sep = Some steps) ->
  forall acc e,
    dict_comp h sep kf d (map VStr ks) acc = Raise e ->
    exists name, e = AttributeError name.
Proof.
  intros Hsep. induction ks as [|k ks IH]; intros acc e Hd; simpl in Hd.
  - discriminate.
  - destruct (resolve h sep d k) as [v|e'] eqn:Hk; [by apply (IH _ _ Hd)|].
    injection Hd as <-. unfold resolve in Hk.
    destruct (Hsep k) as [steps Hs]. rewrite Hs in Hk.
    by apply reduce_getattr_raises in Hk.
Qed.

(** C3: when some step of some key's path is missing on some item,
    [pluck] raises an [AttributeError]: it stops at the first item with an
    unresolved path, having built rows for the items before it only, and
    returns no rows at all. *)
Theorem pluck_fails_fast w keys items ks ds sep kf :
  elements (heap w) keys = Return (map VStr ks) ->
  elements (heap w) items = Return ds ->
  (exists d k steps e,
      d ∈ ds /\ k ∈ ks /\
      PyStr.split k sep = Some steps /\
      reduce (getattr (heap w)) steps d = Raise e) ->
  exists name before d after rows,
    ds = before ++ d :: after /\
    Forall2 (fun d es => project (heap w) keys sep kf d = Return es) before rows /\
    project (heap w) keys sep kf d = Raise (AttributeError name) /\
    pluck keys items sep kf w =
    (Raise (AttributeError name), World (heap w ++ map PyDict rows) (stdout w)).
Proof.
  intros Hkeys Hitems (d & k & steps & e & Hd & Hk & Hsplit & Hmiss).
  destruct (gather_some (heap w) keys sep kf ds) as (rows & e' & Hg).
  { destruct (dict_comp_raises (heap w) sep kf d ks) with (acc := @nil (string * val))
      as [e1 He1].
    - exists k, e. split; [done|]. unfold resolve. by rewrite Hsplit.
    - exists d, e1. split; [done|]. by rewrite (project_listed _ _ ks). }
  destruct (gather_stopped _ _ _ _ _ _ _ Hg)
    as (before & d' & after & Hds & Hbefore & Hd').
  assert (exists name, e' = AttributeError name) as [name ->].
  { rewrite (project_listed _ _ ks) in Hd' by done.
    eapply dict_comp_raises_attribute; [|exact Hd'].
    by apply (split_usable k sep steps). }
  exists name, before, d', after, rows.
  repeat split; try done.
  by rewrite pluck_run, Hitems, Hg.
Qed.

Lemma pluck_fails_fast_witness :
  exists name before d after rows,
    [VRef 1] = before ++ d :: after /\
    Forall2 (fun d es => project (heap Sample.acme_zip) (VRef 2) "." (fun k => k) d
                         = Return es) before rows /\
    project (heap Sample.acme_zip) (VRef 2) "." (fun k => k) d
    = Raise (AttributeError name) /\
    pluck (VRef 2) (VRef 3) "." (fun k => k) Sample.acme_zip =
    (Raise (AttributeError name),
     World (heap Sample.acme_zip ++ map PyDict rows) (stdout Sample.acme_zip)).
Proof.
  apply (pluck_fails_fast Sample.acme_zip (VRef 2) (VRef 3)
           ["name"; "address.zip"] [VRef 1] "." (fun k => k)).
  - reflexivity.
  - reflexivity.
  - exists (VRef 1), "address.zip", ["address"; "zip"], (AttributeError "zip").
    split; [apply list_elem_of_here|].
    split; [apply list_elem_of_further, list_elem_of_here|].
    split; reflexivity.
Defined.

(** ** Frame *)

Lemma elements_grow h ext v xs :
  elements h v = Return xs -> elements (h ++ ext) v = Return xs.
Proof.
  unfold elements. destruct v as [| | |l]; try discriminate.
  destruct (h !! l) as [o|] eqn:Hl; [|discriminate].
  by rewrite (lookup_app_l_Some _ _ _ _ Hl).
Qed.

Lemma pluck_grows keys items sep kf w :
  exists ext,
    snd (pluck keys items sep kf w) = World (heap w ++ ext) (stdout w).
Proof.
  rewrite pluck_run.
  destruct (elements (heap w) items) as [ds|e].
  - destruct (gather (heap w) keys sep kf ds) as [rows [e|]]; by eexists.
  - exists []. rewrite app_nil_r. by destruct w.
Qed.

(** A call leaves every list it could read as it was, and prints
    nothing. *)
Lemma pluck_keeps keys items sep kf w out w' :
  pluck keys items sep kf w = (out, w') ->
  (forall v xs, elements (heap w) v = Return xs ->
                elements (heap w') v = Return xs) /\
  stdout w' = stdout w.
Proof.
  intros Hrun.
  destruct (pluck_grows keys items sep kf w) as [ext Hext].
  rewrite Hrun in Hext. simpl in Hext. subst w'. simpl.
  split; [intros v xs; apply elements_grow | reflexivity].
Qed.



(** ** Running [print_table] *)

Lemma truthy_listed h v xs :
  elements h v = Return xs ->
  truthy h v = match xs with [] => false | _ => true end.
Proof.
  unfold elements, truthy. destruct v as [| | |l]; try discriminate.
  destruct (h !! l) as [[attrs|es|ys]|]; try discriminate.
  intros [= ->]. by destruct xs.
Qed.

Lemma len_listed h v xs :
  elements h v = Return xs -> len h v = Return (length xs).
Proof.
  unfold elements, len. destruct v as [| | |l]; try discriminate.
  destruct (h !! l) as [[attrs|es|ys]|]; try discriminate.
  by intros [= ->].
Qed.

Lemma restrict_skipped items keys sort_by w :
  truthy (heap w) keys = false ->
  restrict items keys sort_by w = (Return (items, sort_by), w).
Proof. intros Hk. unfold restrict, bind, reading. by rewrite Hk. Qed.

Lemma restrict_given items keys sort_by w x xs :
  elements (heap w) keys = Return (x :: xs) ->
  restrict items keys sort_by w =
  match pluck keys items "." (fun k => k) w with
  | (Return items', w1) =>
      (Return (items',
               if bool_decide (of_optional sort_by ∈ x :: xs)
               then sort_by else None), w1)
  | (Raise e, w1) => (Raise e, w1)
  end.
Proof.
  intros Hkeys. unfold restrict. unfold bind at 1. unfold reading at 1.
  rewrite (truthy_listed _ _ _ Hkeys). unfold bind at 1.
  destruct (pluck keys items "." (fun k => k) w) as [[items'|e] w1] eqn:Hrun;
    [|reflexivity].
  destruct (pluck_keeps _ _ _ _ _ _ _ Hrun) as (Hsame & _).
  unfold bind, reading, contains. by rewrite (Hsame _ _ Hkeys).
Qed.

Lemma elem_of_map_VStr s ks : VStr s ∈ map VStr ks <-> s ∈ ks.
Proof.
  as_fmap. rewrite list_elem_of_fmap. split.
  - by intros (s' & [= ->] & Hin).
  - intros Hin. by exists s.
Qed.

Section PrintTableFacts.

Variable to_table : list obj -> val -> option string -> outcome string.

Lemma render_run items sort_by w xs :
  elements (heap w) items = Return xs ->
  render to_table items sort_by w =
  match xs with
  | [] => (Return tt, w)
  | _ :: _ =>
      match to_table (heap w) items sort_by with
      | Return t => (Return tt, World (heap w) (stdout w ++ [t]))
      | Raise e => (Raise e, w)
      end
  end.
Proof.
  intros Hitems. unfold render, bind, reading.
  rewrite (truthy_listed _ _ _ Hitems). destruct xs; [reflexivity|].
  by destruct (to_table (heap w) items sort_by).
Qed.

Lemma report_run count items w xs :
  elements (heap w) items = Return xs ->
  report count items w =
  (Return tt,
   if count
   then World (heap w) (stdout w ++ ["Count: " +:+ pretty (length xs)])
   else w).
Proof.
  intros Hitems. unfold report. destruct count; [|reflexivity].
  unfold bind, reading. by rewrite (len_listed _ _ _ Hitems).
Qed.

Lemma print_table_run items keys sort_by count w :
  print_table to_table items keys sort_by count w =
  match restrict items keys sort_by w with
  | (Return shown, w1) =>
      (render to_table (fst shown) (snd shown) ;;; report count (fst shown)) w1
  | (Raise e, w1) => (Raise e, w1)
  end.
Proof. reflexivity. Qed.

End PrintTableFacts.

Lemma print_table_given to_table items keys sort_by count w k ks :
  elements (heap w) keys = Return (k :: ks) ->
  print_table to_table items keys sort_by count w =
  match pluck keys items "." (fun k => k) w with
  | (Return items', w1) =>
      (render to_table items'
              (if bool_decide (of_optional sort_by ∈ k :: ks)
               then sort_by else None) ;;;
       report count items') w1
  | (Raise e, w1) => (Raise e, w1)
  end.
Proof.
  intros Hkeys.
  rewrite print_table_run, (restrict_given _ _ _ _ _ _ Hkeys).
  by destruct (pluck keys items "." (fun k => k) w) as [[items'|e] w1].
Qed.

(** C5, as amended: when [keys] is a list that is not empty,
    [print_table] renders and counts the list that [pluck] returns for
    the items, and stops where [pluck] raises; when [keys] is [None] or
    an empty list, it renders and counts the items as they were given. *)
Theorem print_table_restricts :
  (forall to_table items keys sort_by count w k ks,
      elements (heap w) keys = Return (k :: ks) ->
      print_table to_table items keys sort_by count w =
      match pluck keys items "." (fun k => k) w with
      | (Return items', w1) =>
          (render to_table items'
                  (if bool_decide (of_optional sort_by ∈ k :: ks)
                   then sort_by else None) ;;;
           report count items') w1
      | (Raise e, w1) => (Raise e, w1)
      end)
  /\
  (forall to_table items keys sort_by count w,
      keys = VNone \/ elements (heap w) keys = Return [] ->
      print_table to_table items keys sort_by count w =
      (render to_table items sort_by ;;; report count items) w).
Proof.
  split.
  - intros to_table items keys sort_by count w k ks. apply print_table_given.
  - intros to_table items keys sort_by count w Hkeys.
    rewrite print_table_run, restrict_skipped; [reflexivity|].
    destruct Hkeys as [->|Hkeys]; [reflexivity|].
    by rewrite (truthy_listed _ _ _ Hkeys).
Qed.

Lemma print_table_restricts_witness :
  print_table Sample.sorted_by (VRef 2) (VRef 1) (Some "name") true Sample.acme_flat
  = (Return tt,
     World (heap Sample.acme_flat ++
              [PyDict [("name", VStr "Acme"); ("city", VStr "Austin")];
               PyList [VRef 3]])
           ["table sorted by name"; "Count: 1"])
  /\
  print_table Sample.sorted_by (VRef 2) VNone (Some "name") true Sample.acme_flat
  = (Return tt, World (heap Sample.acme_flat) ["table sorted by name"; "Count: 1"]).
Proof.
  split.
  - rewrite (proj1 print_table_restricts Sample.sorted_by (VRef 2) (VRef 1)
               (Some "name") true Sample.acme_flat (VStr "name") [VStr "city"] eq_refl).
    reflexivity.
  - rewrite (proj2 print_table_restricts Sample.sorted_by (VRef 2) VNone
               (Some "name") true Sample.acme_flat (or_introl eq_refl)).
    reflexivity.
Defined.

(** C5, as stated, fails on an empty key list: the items are rendered
    as given, no row is built, although [pluck] on the same arguments
    would return a new list with one empty row. *)
Lemma print_table_empty_keys_unrestricted :
  elements (heap Sample.acme_no_keys) (VRef 1) = Return [] /\
  restrict (VRef 2) (VRef 1) None Sample.acme_no_keys
  = (Return (VRef 2, None), Sample.acme_no_keys) /\
  (forall to_table count,
      print_table to_table (VRef 2) (VRef 1) None count Sample.acme_no_keys
      = (render to_table (VRef 2) None ;;; report count (VRef 2))
          Sample.acme_no_keys) /\
  (exists w',
      pluck (VRef 1) (VRef 2) "." (fun k => k) Sample.acme_no_keys
      = (Return (VRef 4), w') /\
      read_rows (heap w') (VRef 4) = Some [[]]).
Proof.
  split; [reflexivity|]. split; [reflexivity|]. split; [reflexivity|].
  eexists. split; reflexivity.
Qed.

(** C6, as amended: when [keys] is a list of strings that is not empty
    and [sort_by] is not one of them, [print_table] goes on after
    [pluck] with the sort key [None]: the table, when there is a row to
    show, is the one [to_table] gives for the rows and [None], and the
    call returns normally if [to_table] does.  When [keys] is an empty
    list, [print_table] goes on with the items and the sort key as they
    were given, whatever the sort key is: the table, when there is an
    item to show, is the one [to_table] gives for the items and that
    sort key. *)
Theorem print_table_clears_sort_key :
  (forall to_table items keys ks s count w items' w1,
      elements (heap w) keys = Return (map VStr ks) ->
      ks <> [] ->
      s ∉ ks ->
      pluck keys items "." (fun k => k) w = (Return items', w1) ->
      print_table to_table items keys (Some s) count w
      = (render to_table items' None ;;; report count items') w1
      /\
      (forall x xs t,
          elements (heap w1) items' = Return (x :: xs) ->
          to_table (heap w1) items' None = Return t ->
          print_table to_table items keys (Some s) count w
          = (Return tt,
             World (heap w1)
                   (stdout w ++ [t] ++
                      if count
                      then ["Count: " +:+ pretty (length (x :: xs))]
                      else []))))
  /\
  (forall to_table items keys sort_by count w,
      elements (heap w) keys = Return [] ->
      print_table to_table items keys sort_by count w
      = (render to_table items sort_by ;;; report count items) w
      /\
      (forall x xs t,
          elements (heap w) items = Return (x :: xs) ->
          to_table (heap w) items sort_by = Return t ->
          print_table to_table items keys sort_by count w
          = (Return tt,
             World (heap w)
                   (stdout w ++ [t] ++
                      if count
                      then ["Count: " +:+ pretty (length (x :: xs))]
                      else [])))).
Proof.
  split.
  - intros to_table items keys ks s count w items' w1 Hkeys Hne Hs Hrun.
    assert (print_table to_table items keys (Some s) count w
            = (render to_table items' None ;;; report count items') w1) as Heq.
    { destruct ks as [|k ks]; [done|].
      rewrite (print_table_given to_table items keys (Some s) count w
                 (VStr k) (map VStr ks) Hkeys), Hrun.
      rewrite bool_decide_eq_false_2; [reflexivity|].
      change (VStr k :: map VStr ks) with (map VStr (k :: ks)).
      simpl of_optional. by rewrite elem_of_map_VStr. }
    split; [exact Heq|].
    intros x xs t Hrows Ht. rewrite Heq. unfold bind at 1.
    rewrite (render_run _ _ _ _ _ Hrows), Ht.
    destruct (pluck_keeps _ _ _ _ _ _ _ Hrun) as (_ & Hout).
    rewrite (report_run count items' _ (x :: xs)) by exact Hrows.
    simpl. rewrite Hout. destruct count; simpl.
    + by rewrite <- app_assoc.
    + reflexivity.
  - intros to_table items keys sort_by count w Hkeys.
    assert (print_table to_table items keys sort_by count w
            = (render to_table items sort_by ;;; report count items) w) as Heq.
    { rewrite print_table_run, restrict_skipped; [reflexivity|].
      by rewrite (truthy_listed _ _ _ Hkeys). }
    split; [exact Heq|].
    intros x xs t Hrows Ht. rewrite Heq. unfold bind at 1.
    rewrite (render_run _ _ _ _ _ Hrows), Ht.
    rewrite (report_run count items _ (x :: xs)) by exact Hrows.
    simpl. destruct count; simpl.
    + by rewrite <- app_assoc.
    + reflexivity.
Qed.

Lemma print_table_clears_sort_key_witness :
  print_table Sample.sorted_by (VRef 2) (VRef 1) (Some "zip") true Sample.acme_flat
  = (Return tt,
     World (heap Sample.acme_flat ++
              [PyDict [("name", VStr "Acme"); ("city", VStr "Austin")];
               PyList [VRef 3]])
           ["table"; "Count: 1"])
  /\
  print_table Sample.sorted_by (VRef 2) (VRef 1) (Some "name") false
              Sample.acme_no_keys
  = (Return tt, World (heap Sample.acme_no_keys) ["table sorted by name"]).
Proof.
  assert ("zip" ∉ ["name"; "city"]) as Hzip.
  { intros H. apply elem_of_cons in H as [H|H]; [discriminate|].
    apply list_elem_of_singleton in H. discriminate. }
  split.
  - destruct (proj1 print_table_clears_sort_key
                Sample.sorted_by (VRef 2) (VRef 1)
                ["name"; "city"] "zip" true Sample.acme_flat (VRef 4)
                (World (heap Sample.acme_flat ++
                          [PyDict [("name", VStr "Acme"); ("city", VStr "Austin")];
                           PyList [VRef 3]]) [])
                eq_refl ltac:(discriminate) Hzip eq_refl) as [_ Hshown].
    exact (Hshown (VRef 3) [] "table" eq_refl eq_refl).
  - destruct (proj2 print_table_clears_sort_key
                Sample.sorted_by (VRef 2) (VRef 1) (Some "name") false
                Sample.acme_no_keys eq_refl) as [_ Hshown].
    exact (Hshown (VRef 0) [] "table sorted by name" eq_refl eq_refl).
Defined.

(** C6, as stated, fails on an empty key list: the sort key ["zip"] is
    among no keys, and it is handed to the renderer all the same. *)
Lemma print_table_empty_keys_sort_key_kept :
  elements (heap Sample.acme_no_keys) (VRef 1) = Return [] /\
  print_table Sample.sorted_by (VRef 2) (VRef 1) (Some "zip") true
              Sample.acme_no_keys
  = (Return tt,
     World (heap Sample.acme_no_keys) ["table sorted by zip"; "Count: 1"]) /\
  (forall to_table count,
      print_table to_table (VRef 2) (VRef 1) (Some "zip") count
                  Sample.acme_no_keys
      = (render to_table (VRef 2) (Some "zip") ;;; report count (VRef 2))
          Sample.acme_no_keys).
Proof. repeat split. Qed.

Lemma restrict_prints_nothing items keys sort_by w out w1 :
  restrict items keys sort_by w = (out, w1) -> stdout w1 = stdout w.
Proof.
  unfold restrict. unfold bind at 1. unfold reading at 1.
  destruct (truthy (heap w) keys).
  - unfold bind at 1.
    destruct (pluck keys items "." (fun k => k) w) as [[items'|e] w2] eqn:Hrun;
      destruct (pluck_keeps _ _ _ _ _ _ _ Hrun) as (_ & Hout).
    + unfold bind, reading, ret.
      destruct (contains (heap w2) keys sort_by); by intros [= _ <-].
    + by intros [= _ <-].
  - by intros [= _ <-].
Qed.



(** ** The option callback *)

Lemma absent_by_check (f : string) (options : list string) :
  bool_decide (f ∈ options) = false -> f ∉ options.
Proof. apply bool_decide_eq_false_1. Qed.

Lemma validate_accepts options fields :
  Forall (fun f => f ∈ options) fields -> validate options fields = Return tt.
Proof.
  induction 1 as [|f fields Hf _ IH]; simpl; [reflexivity|].
  by rewrite bool_decide_eq_true_2.
Qed.

Lemma validate_rejects options good bad rest :
  Forall (fun f => f ∈ options) good ->
  bad ∉ options ->
  validate options (good ++ bad :: rest) = Raise (BadParameter (not_valid bad options)).
Proof.
  intros Hgood Hbad. induction Hgood as [|f good Hf _ IH]; simpl.
  - by rewrite bool_decide_eq_false_2.
  - by rewrite bool_decide_eq_true_2.
Qed.

Lemma validate_options options : validate options options = Return tt.
Proof. apply validate_accepts, Forall_forall. auto. Qed.

Lemma csv_callback_accepts options all value fields :
  parse options all value = Return fields ->
  Forall (fun f => f ∈ options) fields ->
  csv_callback options all value = Return fields.
Proof.
  intros Hp Hf. unfold csv_callback. by rewrite Hp, validate_accepts.
Qed.

Lemma csv_callback_rejects options all value good bad rest :
  parse options all value = Return (good ++ bad :: rest) ->
  Forall (fun f => f ∈ options) good ->
  bad ∉ options ->
  csv_callback options all value = Raise (BadParameter (not_valid bad options)).
Proof.
  intros Hp Hgood Hbad. unfold csv_callback.
  by rewrite Hp, validate_rejects.
Qed.

(** C7, as amended: the text ["all"] resolves to [options] when no
    override or an empty one was given, and to a non-empty override when
    all of its tokens are in [options]; any other text resolves to its
    comma-separated pieces, stripped of surrounding whitespace, when all
    of them are in [options]; and whenever a parsed token is not in
    [options], the callback raises [BadParameter] with the message that
    names the first such token.  With [options = ["a", "b", "c"]] and no
    override: ["all"] gives [["a", "b", "c"]], ["a, b"] gives
    [["a", "b"]], and ["a,z"] fails naming [z]. *)
Theorem csv_callback_resolves :
  (forall options all,
      all = None \/ all = Some [] ->
      csv_callback options all (Text "all") = Return options)
  /\
  (forall options x xs,
      Forall (fun f => f ∈ options) (x :: xs) ->
      csv_callback options (Some (x :: xs)) (Text "all") = Return (x :: xs))
  /\
  (forall options all s,
      s <> "all" ->
      exists parts,
        PyStr.split s "," = Some parts /\
        parse options all (Text s) = Return (map PyStr.strip parts) /\
        (Forall (fun f => f ∈ options) (map PyStr.strip parts) ->
         csv_callback options all (Text s) = Return (map PyStr.strip parts)))
  /\
  (forall options all value good bad rest,
      parse options all value = Return (good ++ bad :: rest) ->
      Forall (fun f => f ∈ options) good ->
      bad ∉ options ->
      csv_callback options all value
      = Raise (BadParameter (not_valid bad options)))
  /\
  csv_callback ["a"; "b"; "c"] None (Text "all") = Return ["a"; "b"; "c"]
  /\
  csv_callback ["a"; "b"; "c"] None (Text "a, b") = Return ["a"; "b"]
  /\
  csv_callback ["a"; "b"; "c"] None (Text "a,z")
  = Raise (BadParameter "'z' is not valid. Choose from a, b, c.").
Proof.
  split; [|split; [|split; [|split]]].
  - intros options all Hall. apply csv_callback_accepts.
    + by destruct Hall as [->| ->].
    + apply Forall_forall. auto.
  - intros options x xs Hin. by apply csv_callback_accepts.
  - intros options all s Hs. exists (PyStr.split_scan "," s 0 EmptyString).
    assert (parse options all (Text s)
            = Return (map PyStr.strip (PyStr.split_scan "," s 0 EmptyString))) as Hp.
    { unfold parse. apply String.eqb_neq in Hs. by rewrite Hs. }
    split; [reflexivity|]. split; [exact Hp|].
    intros Hin. by apply csv_callback_accepts.
  - apply csv_callback_rejects.
  - repeat split.
Qed.

Lemma csv_callback_resolves_witness :
  csv_callback ["a"; "b"; "c"] (Some []) (Text "all") = Return ["a"; "b"; "c"]
  /\ csv_callback ["a"; "b"; "c"] (Some ["c"; "a"]) (Text "all") = Return ["c"; "a"]
  /\ csv_callback ["a"; "b"; "c"] None (Text "y ,z")
     = Raise (BadParameter (not_valid "y" ["a"; "b"; "c"])).
Proof.
  destruct csv_callback_resolves as (Hnone & Hsome & _ & Hbad & _).
  split; [|split].
  - apply Hnone. by right.
  - apply Hsome. repeat constructor.
  - apply (Hbad ["a"; "b"; "c"] None (Text "y ,z") [] "y" ["z"]).
    + reflexivity.
    + constructor.
    + by apply (absent_by_check _ _).
Defined.

(** C7, as stated, fails on an empty override: ["all"] then resolves
    to [options], not to the set that the caller gave. *)
Lemma csv_callback_all_not_the_override :
  csv_callback ["a"; "b"; "c"] (Some []) (Text "all") = Return ["a"; "b"; "c"]
  /\ csv_callback ["a"; "b"; "c"] (Some []) (Text "all") <> Return [].
Proof. split; [reflexivity | discriminate]. Qed.

(** C10: with an empty override, as [fields_option] passes, ["all"]
    resolves to the whole of [options]; no override makes ["all"]
    resolve to an empty list unless [options] is empty; and a non-empty
    override is validated like any input, so that its first token
    outside [options] raises [BadParameter]. *)
Theorem csv_callback_empty_override :
  (forall options,
      csv_callback options (Some []) (Text "all") = Return options)
  /\
  (forall attr_keys, fields_option attr_keys (Text "all") = Return attr_keys)
  /\
  (forall options all,
      csv_callback options all (Text "all") = Return [] -> options = [])
  /\
  (forall options x xs good bad rest,
      x :: xs = good ++ bad :: rest ->
      Forall (fun f => f ∈ options) good ->
      bad ∉ options ->
      csv_callback options (Some (x :: xs)) (Text "all")
      = Raise (BadParameter (not_valid bad options))).
Proof.
  assert (forall options, csv_callback options (Some []) (Text "all") = Return options)
    as Hempty.
  { intros options. apply csv_callback_accepts; [reflexivity|].
    apply Forall_forall. auto. }
  split; [exact Hempty|]. split; [intros attr_keys; apply Hempty|]. split.
  - intros options all. unfold csv_callback. simpl.
    destruct (validate options (all_or all options)); [|discriminate].
    intros [= Hall]. by destruct all as [[|x xs]|].
  - intros options x xs good bad rest Heq Hgood Hbad.
    apply (csv_callback_rejects _ _ _ good bad rest); [|done..].
    simpl. by rewrite Heq.
Qed.

Lemma csv_callback_empty_override_witness :
  csv_callback ["a"; "b"] (Some ["a"; "z"]) (Text "all")
  = Raise (BadParameter (not_valid "z" ["a"; "b"]))
  /\ (csv_callback [] (Some []) (Text "all") = Return [] -> @nil string = []).
Proof.
  destruct csv_callback_empty_override as (_ & _ & Hnil & Hbad).
  split.
  - apply (Hbad ["a"; "b"] "a" ["z"] ["a"] "z" []).
    + reflexivity.
    + repeat constructor.
    + by apply (absent_by_check _ _).
  - apply (Hnil [] (Some [])).
Defined.

(** ** The client holder *)

Section ClientsFacts.

Import Clients.

Variable refuses : service -> CliAuth -> nat -> option exn.
Variable a : CliAuth.
Variable s0 : session.

Lemma service_of_inj n1 n2 : service_of n1 = service_of n2 -> n1 = n2.
Proof. destruct n1, n2; simpl; congruence. Qed.

Lemma get_unfold name :
  get refuses name =
  cachedproperty name (fun self => construct refuses (service_of name) (auth self)).
Proof. by destruct name. Qed.

Lemma consistent_new : consistent a s0 (new a) s0 [].
Proof.
  split; simpl; try done.
  - by rewrite app_nil_r.
  - constructor.
  - intros c Hc. by apply elem_of_nil in Hc.
Qed.

Lemma get_consistent name self s built out self' s' :
  consistent a s0 self s built ->
  get refuses name self s = (out, (self', s')) ->
  (exists built', consistent a s0 self' s' built') /\
  (forall n l, stored n (cached self) = Some l -> stored n (cached self') = Some l) /\
  (forall l, out = Return l -> stored name (cached self') = Some l).
Proof.
  intros [Hauth Hsince Hbauth Honce Hstored Hbuilt].
  rewrite get_unfold. unfold cachedproperty.
  destruct (stored name (cached self)) as [l|] eqn:Hname.
  - intros [= <- <- <-]. split; [by exists built|]. split; [done|].
    by intros l' [= <-].
  - unfold construct.
    destruct (refuses (service_of name) (auth self) (attempts s)) as [e|].
    + intros [= <- <- <-]. split; [by exists built|]. split; [done|].
      intros l' [=].
    + intros [= <- <- <-]. simpl. split; [|split].
      * exists (built ++ [Client (service_of name) (auth self)]).
        split; simpl.
        -- done.
        -- by rewrite Hsince, app_assoc.
        -- apply Forall_app. split; [done|]. by repeat constructor.
        -- rewrite map_app. simpl. apply NoDup_app. split; [done|].
           split; [|apply NoDup_singleton].
           intros svc Hsvc Hnew. apply list_elem_of_singleton in Hnew as ->.
           as_fmap. apply list_elem_of_fmap in Hsvc as (c & Hc & Hin).
           destruct (Hbuilt c Hin) as (name' & Hname' & [l' Hl']).
           rewrite Hname' in Hc. apply service_of_inj in Hc as ->. congruence.
        -- intros n l. destruct (decide (n = name)) as [->|Hn].
           ++ intros [= <-]. rewrite lookup_app_r by lia.
              by rewrite Nat.sub_diag, Hauth.
           ++ intros Hl. apply lookup_app_l_Some. by apply Hstored.
        -- intros c [Hc|Hc]%elem_of_app.
           ++ destruct (Hbuilt c Hc) as (n & Hn & [l Hl]). exists n.
              split; [done|]. destruct (decide (n = name)); by eexists.
           ++ apply list_elem_of_singleton in Hc as ->. exists name.
              split; [done|]. rewrite decide_True by done. by eexists.
      * intros n l Hl. destruct (decide (n = name)) as [->|]; [congruence | done].
      * intros l [= <-]. by rewrite decide_True.
Qed.

Lemma run_consistent names :
  forall self s built outs self' s',
    consistent a s0 self s built ->
    run refuses names self s = (outs, (self', s')) ->
    (exists built', consistent a s0 self' s' built') /\
    (forall n l, stored n (cached self) = Some l -> stored n (cached self') = Some l) /\
    (forall i name l,
        names !! i = Some name -> outs !! i = Some (Return l) ->
        stored name (cached self') = Some l).
Proof.
  induction names as [|name names IH]; intros self s built outs self' s' Hc; simpl.
  - intros [= <- <- <-]. split; [by exists built|]. split; [done|].
    intros i n l Hi. by rewrite lookup_nil in Hi.
  - destruct (get refuses name self s) as [out [self1 s1]] eqn:Hget.
    destruct (run refuses names self1 s1) as [outs1 [self2 s2]] eqn:Hrun.
    intros [= <- <- <-].
    destruct (get_consistent _ _ _ _ _ _ _ Hc Hget) as ([built1 Hc1] & Hmono1 & Hout).
    destruct (IH _ _ _ _ _ _ Hc1 Hrun) as (Hc2 & Hmono2 & Houts).
    split; [done|]. split; [by auto|].
    intros [|i] n l; simpl.
    + intros [= <-] [= ->]. by apply Hmono2, Hout.
    + apply Houts.
Qed.

End ClientsFacts.



(** * Further properties *)

(** ** [pluck]: what it raises *)

Lemma reduce_getattr_raises_step h steps :
  forall d e, reduce (getattr h) steps d = Raise e ->
              exists name, name ∈ steps /\ e = AttributeError name.
Proof.
  induction steps as [|step steps IH]; intros d e Hr; simpl in Hr.
  - discriminate.
  - destruct (getattr h d step) as [v|e'] eqn:Hg.
    + destruct (IH v e Hr) as (name & Hin & ->).
      exists name. split; [by apply list_elem_of_further | done].
    + injection Hr as <-. exists step. split; [apply list_elem_of_here|].
      unfold getattr in Hg.
      destruct d as [| | |l]; try by injection Hg as <-.
      destruct (h !! l) as [[attrs|es|xs]|]; try by injection Hg as <-.
      destruct (assoc step attrs); [discriminate|]. by injection Hg as <-.
Qed.

Lemma dict_comp_raises_inv h sep kf d ks :
  forall acc e,
    dict_comp h sep kf d (map VStr ks) acc = Raise e ->
    exists k, k ∈ ks /\ resolve h sep d k = Raise e.
Proof.
  induction ks as [|k ks IH]; intros acc e Hd; simpl in Hd.
  - discriminate.
  - destruct (resolve h sep d k) as [v|e'] eqn:Hk.
    + destruct (IH _ _ Hd) as (k' & Hin & Hk').
      exists k'. split; [by apply list_elem_of_further | done].
    + injection Hd as <-. exists k. split; [apply list_elem_of_here | done].
Qed.

(** X1: with an empty [key_sep], [pluck] on at least one item and a key
    list that starts with a string raises [ValueError], whatever the
    items are, and builds no row. *)
Theorem pluck_empty_separator w keys items k ks d ds kf :
  elements (heap w) keys = Return (VStr k :: ks) ->
  elements (heap w) items = Return (d :: ds) ->
  pluck keys items "" kf w = (Raise ValueError, w).
Proof.
  intros Hkeys Hitems. rewrite pluck_run, Hitems. simpl.
  unfold project. rewrite Hkeys. simpl.
  rewrite app_nil_r. by destruct w.
Qed.

Lemma pluck_empty_separator_witness :
  pluck (VRef 2) (VRef 3) "" (fun k => k) Sample.acme
  = (Raise ValueError, Sample.acme).
Proof.
  exact (pluck_empty_separator Sample.acme (VRef 2) (VRef 3)
           "name" [VStr "address.city"] (VRef 1) [] (fun k => k)
           eq_refl eq_refl).
Defined.

(** X2: on a list of string keys and a list of items, [pluck] raises
    nothing but [ValueError], and that only for an empty [key_sep], or an
    [AttributeError] naming a piece of the path of one of the keys, the
    piece at which the lookup from one of the items stops. *)
Theorem pluck_raises_only w keys items ks ds sep kf e w' :
  elements (heap w) keys = Return (map VStr ks) ->
  elements (heap w) items = Return ds ->
  pluck keys items sep kf w = (Raise e, w') ->
  (sep = "" /\ e = ValueError)
  \/
  (exists d k steps name,
      d ∈ ds /\ k ∈ ks /\
      PyStr.split k sep = Some steps /\
      name ∈ steps /\
      reduce (getattr (heap w)) steps d = Raise (AttributeError name) /\
      e = AttributeError name).
Proof.
  intros Hkeys Hitems Hrun. rewrite pluck_run, Hitems in Hrun.
  destruct (gather (heap w) keys sep kf ds) as [rows [e'|]] eqn:Hg;
    [|discriminate].
  injection Hrun as -> _.
  destruct (gather_stopped _ _ _ _ _ _ _ Hg)
    as (before & d & after & -> & _ & Hd).
  rewrite (project_listed _ _ ks) in Hd by done.
  apply dict_comp_raises_inv in Hd as (k & Hk & Hres).
  unfold resolve in Hres. unfold PyStr.split in *.
  destruct sep as [|c sep].
  - left. split; [done|]. by injection Hres as <-.
  - right. destruct (reduce_getattr_raises_step _ _ _ _ Hres) as (name & Hname & ->).
    exists d, k, (PyStr.split_scan (String c sep) k 0 EmptyString), name.
    repeat split; try done.
    apply elem_of_app. right. apply list_elem_of_here.
Qed.

Lemma pluck_raises_only_witness :
  ("." = "" /\ AttributeError "zip" = ValueError)
  \/
  (exists d k steps name,
      d ∈ [VRef 1] /\ k ∈ ["name"; "address.zip"] /\
      PyStr.split k "." = Some steps /\
      name ∈ steps /\
      reduce (getattr (heap Sample.acme_zip)) steps d
      = Raise (AttributeError name) /\
      AttributeError "zip" = AttributeError name).
Proof.
  exact (pluck_raises_only Sample.acme_zip (VRef 2) (VRef 3)
           ["name"; "address.zip"] [VRef 1] "." (fun k => k)
           (AttributeError "zip") Sample.acme_zip eq_refl eq_refl eq_refl).
Defined.

(** ** [pluck]: the rows *)

Lemma dict_set_nodup k v es :
  NoDup (map fst es) -> NoDup (map fst (dict_set k v es)).
Proof.
  intros Hnd. rewrite dict_set_keys. case_bool_decide as Hin; [done|].
  apply NoDup_app. split; [done|]. split; [|apply NoDup_singleton].
  intros key Hkey Hnew. apply list_elem_of_singleton in Hnew as ->. done.
Qed.

Lemma dict_comp_nodup h sep kf d ks :
  forall acc es,
    NoDup (map fst acc) ->
    dict_comp h sep kf d ks acc = Return es ->
    NoDup (map fst es).
Proof.
  induction ks as [|k ks IH]; intros acc es Hnd Hes; simpl in Hes.
  - by injection Hes as <-.
  - destruct k as [|n|s|l]; try discriminate.
    destruct (resolve h sep d s) as [v|e]; [|discriminate].
    apply (IH _ _ (dict_set_nodup (kf s) v acc Hnd) Hes).
Qed.

Lemma dict_comp_length h sep kf d ks :
  forall acc es,
    dict_comp h sep kf d ks acc = Return es ->
    length es <= length acc + length ks.
Proof.
  induction ks as [|k ks IH]; intros acc es Hes; simpl in Hes.
  - injection Hes as <-. lia.
  - destruct k as [|n|s|l]; try discriminate.
    destruct (resolve h sep d s) as [v|e]; [|discriminate].
    apply IH in Hes. simpl.
    assert (length (dict_set (kf s) v acc) <= S (length acc)) as Hset.
    { rewrite <- (length_map fst (dict_set _ _ _)), dict_set_keys.
      case_bool_decide; rewrite ?length_app, !length_map; simpl; lia. }
    lia.
Qed.

(** What a returning call has gathered. *)
Lemma pluck_returned keys items sep kf w r w' :
  pluck keys items sep kf w = (Return r, w') ->
  exists ds rows,
    elements (heap w) items = Return ds /\
    gather (heap w) keys sep kf ds = (rows, None) /\
    read_rows (heap w') r = Some rows.
Proof.
  intros Hrun. rewrite pluck_run in Hrun.
  destruct (elements (heap w) items) as [ds|e]; [|discriminate].
  destruct (gather (heap w) keys sep kf ds) as [rows [e|]] eqn:Hg;
    [discriminate|].
  injection Hrun as <- <-. exists ds, rows. simpl.
  split; [done|]. split; [done|]. apply read_rows_fresh.
Qed.

(** X3: in every row that [pluck] returns the keys are pairwise
    distinct, and there are at most as many as [keys] has elements,
    also when [keys] repeats a key or [key_func] sends two keys to one
    name. *)
Theorem pluck_rows_distinct_keys keys items sep kf w r w' ks :
  pluck keys items sep kf w = (Return r, w') ->
  elements (heap w) keys = Return ks ->
  exists rows,
    read_rows (heap w') r = Some rows /\
    Forall (fun es => NoDup (map fst es) /\ length es <= length ks) rows.
Proof.
  intros Hrun Hkeys.
  destruct (pluck_returned _ _ _ _ _ _ _ Hrun) as (ds & rows & _ & Hg & Hread).
  exists rows. split; [done|].
  apply gather_done in Hg. apply Forall_forall. intros es Hes.
  apply list_elem_of_lookup in Hes as [i Hi].
  destruct (Forall2_lookup_r _ _ _ _ _ Hg Hi) as (d & _ & Hd).
  unfold project in Hd. rewrite Hkeys in Hd. split.
  - apply (dict_comp_nodup _ _ _ _ _ _ _ (NoDup_nil_2 : NoDup (map fst [])) Hd).
  - apply dict_comp_length in Hd. simpl in Hd. lia.
Qed.

Lemma pluck_rows_distinct_keys_witness :
  exists rows,
    read_rows
      (heap Sample.shipment ++
         [PyDict [("city", VStr "Boston")]; PyList [VRef 5]])
      (VRef 6) = Some rows /\
    Forall (fun es => NoDup (map fst es) /\ length es <= 2) rows.
Proof.
  exact (pluck_rows_distinct_keys (VRef 3) (VRef 4) "." Sample.last_segment
           Sample.shipment (VRef 6)
           (World (heap Sample.shipment ++
                     [PyDict [("city", VStr "Boston")]; PyList [VRef 5]]) [])
           [VStr "origin.city"; VStr "target.city"] eq_refl eq_refl).
Defined.

(** ** [pluck]: nested keys *)

Lemma prefix_one c x s :
  String.prefix (String c EmptyString) (String x s)
  = if ascii_dec c x then true else false.
Proof. simpl. destruct (ascii_dec c x); [by destruct s | done]. Qed.

Lemma split_scan_one c a :
  forall b cur,
    PyStr.split_scan (String c EmptyString) (a +:+ String c b) 0 cur
    = PyStr.split_scan (String c EmptyString) a 0 cur
      ++ PyStr.split_scan (String c EmptyString) b 0 EmptyString.
Proof.
  induction a as [|x a IH]; intros b cur.
  - change (EmptyString +:+ String c b) with (String c b).
    cbn [PyStr.split_scan]. rewrite prefix_one.
    by destruct (ascii_dec c c).
  - rewrite str_app_cons. cbn [PyStr.split_scan]. rewrite !prefix_one.
    destruct (ascii_dec c x); simpl String.length; simpl Nat.sub;
      by rewrite IH.
Qed.

Lemma reduce_app {A B} (f : A -> B -> outcome A) xs ys init :
  reduce f (xs ++ ys) init =
  match reduce f xs init with
  | Return a => reduce f ys a
  | Raise e => Raise e
  end.
Proof.
  revert init. induction xs as [|x xs IH]; intros init; simpl; [done|].
  destruct (f init x); [apply IH | done].
Qed.

(** X4: with a separator of one character, a key made of two keys
    joined by the separator resolves to what the second key resolves to
    from the value that the first key resolves to, and fails where the
    first key fails: [key1.key2] is [key2] of [key1]. *)
Theorem resolve_nested h c d key1 key2 :
  resolve h (String c EmptyString) d (key1 +:+ String c key2) =
  match resolve h (String c EmptyString) d key1 with
  | Return v => resolve h (String c EmptyString) v key2
  | Raise e => Raise e
  end.
Proof.
  unfold resolve, PyStr.split. rewrite split_scan_one. apply reduce_app.
Qed.

(** ** [print_table]: what gets printed *)

Lemma pluck_returns_list keys items sep kf w r w' :
  pluck keys items sep kf w = (Return r, w') ->
  exists ds xs,
    elements (heap w) items = Return ds /\
    elements (heap w') r = Return xs /\
    length xs = length ds.
Proof.
  intros Hrun. rewrite pluck_run in Hrun.
  destruct (elements (heap w) items) as [ds|e]; [|discriminate].
  destruct (gather (heap w) keys sep kf ds) as [rows [e|]] eqn:Hg;
    [discriminate|].
  injection Hrun as <- <-. simpl.
  exists ds, (map VRef (seq (length (heap w)) (length rows))).
  split; [done|]. split.
  - unfold elements.
    rewrite app_assoc, lookup_app_r by (rewrite length_app, length_map; lia).
    by rewrite length_app, length_map, Nat.sub_diag.
  - rewrite length_map, length_seq. apply gather_done in Hg.
    symmetry. by eapply Forall2_length.
Qed.

Lemma restrict_shows_list items keys sort_by w shown w1 ds :
  elements (heap w) items = Return ds ->
  restrict items keys sort_by w = (Return shown, w1) ->
  exists xs, elements (heap w1) (fst shown) = Return xs /\ length xs = length ds.
Proof.
  intros Hitems. unfold restrict. unfold bind at 1. unfold reading at 1.
  destruct (truthy (heap w) keys).
  - unfold bind at 1.
    destruct (pluck keys items "." (fun k => k) w) as [[items'|e] w2] eqn:Hrun;
      [|discriminate].
    destruct (pluck_returns_list _ _ _ _ _ _ _ Hrun) as (ds' & xs & Hds' & Hxs & Hlen).
    rewrite Hitems in Hds'. injection Hds' as <-.
    unfold bind, reading, ret.
    destruct (contains (heap w2) keys sort_by); [|discriminate].
    intros [= <- <-]. by exists xs.
  - intros [= <- <-]. by exists ds.
Qed.

(** X5: a call of [print_table] on a list of items that raises has
    printed nothing: neither a table nor a count comes out when [pluck]
    or the renderer fails. *)
Theorem print_table_raise_prints_nothing to_table items keys sort_by count w ds e w' :
  elements (heap w) items = Return ds ->
  print_table to_table items keys sort_by count w = (Raise e, w') ->
  stdout w' = stdout w.
Proof.
  intros Hitems. rewrite print_table_run.
  destruct (restrict items keys sort_by w) as [[shown|e1] w1] eqn:Hres.
  - destruct (restrict_shows_list _ _ _ _ _ _ _ Hitems Hres) as (xs & Hxs & _).
    apply restrict_prints_nothing in Hres.
    unfold bind at 1. rewrite (render_run _ _ _ _ _ Hxs).
    destruct xs as [|x xs].
    + rewrite (report_run count _ _ []) by exact Hxs. discriminate.
    + destruct (to_table (heap w1) (fst shown) (snd shown)) as [t|e2].
      * rewrite (report_run count _ _ (x :: xs)) by exact Hxs. discriminate.
      * by intros [= _ <-].
  - apply restrict_prints_nothing in Hres. by intros [= _ <-].
Qed.

Lemma print_table_raise_prints_nothing_witness :
  stdout (World (heap Sample.acme_zip) ["earlier"]) = ["earlier"].
Proof.
  exact (print_table_raise_prints_nothing Sample.sorted_by (VRef 3) (VRef 2)
           None true (World (heap Sample.acme_zip) ["earlier"]) [VRef 1]
           (AttributeError "zip") (World (heap Sample.acme_zip) ["earlier"])
           eq_refl eq_refl).
Defined.

(** X6: when [keys] is a list of strings and [sort_by] is one of them,
    [print_table] goes on after [pluck] with that sort key unchanged. *)
Theorem print_table_keeps_sort_key to_table items keys ks s count w items' w1 :
  elements (heap w) keys = Return (map VStr ks) ->
  s ∈ ks ->
  pluck keys items "." (fun k => k) w = (Return items', w1) ->
  print_table to_table items keys (Some s) count w
  = (render to_table items' (Some s) ;;; report count items') w1.
Proof.
  intros Hkeys Hs Hrun.
  destruct ks as [|k ks]; [by apply elem_of_nil in Hs|].
  rewrite (print_table_given to_table items keys (Some s) count w
             (VStr k) (map VStr ks) Hkeys), Hrun.
  rewrite bool_decide_eq_true_2; [reflexivity|].
  change (VStr k :: map VStr ks) with (map VStr (k :: ks)).
  simpl of_optional. by rewrite elem_of_map_VStr.
Qed.

Lemma print_table_keeps_sort_key_witness :
  print_table Sample.sorted_by (VRef 2) (VRef 1) (Some "city") true
              Sample.acme_flat
  = (Return tt,
     World (heap Sample.acme_flat ++
              [PyDict [("name", VStr "Acme"); ("city", VStr "Austin")];
               PyList [VRef 3]])
           ["table sorted by city"; "Count: 1"]).
Proof.
  rewrite (print_table_keeps_sort_key Sample.sorted_by (VRef 2) (VRef 1)
             ["name"; "city"] "city" true Sample.acme_flat (VRef 4)
             (World (heap Sample.acme_flat ++
                       [PyDict [("name", VStr "Acme"); ("city", VStr "Austin")];
                        PyList [VRef 3]]) [])
             eq_refl
             ltac:(apply list_elem_of_further, list_elem_of_here) eq_refl).
  reflexivity.
Defined.

(** X8: with a renderer that does not raise, and with [keys] either
    [None] or a list of strings whose paths all resolve, [print_table]
    with [count] set returns and its last printed line is ["Count: n"]
    for [n] the number of items it was given: selecting fields does not
    change the count. *)
Theorem print_table_counts_the_items to_table items keys ks ds sort_by w :
  (forall h v s, exists t, to_table h v s = Return t) ->
  elements (heap w) items = Return ds ->
  keys = VNone \/
  (elements (heap w) keys = Return (map VStr ks) /\
   forall d k, d ∈ ds -> k ∈ ks ->
               exists v, resolve (heap w) "." d k = Return v) ->
  exists w',
    print_table to_table items keys sort_by true w = (Return tt, w') /\
    last (stdout w') = Some ("Count: " +:+ pretty (length ds)).
Proof.
  intros Htotal Hitems Hkeys.
  assert (exists shown w1, restrict items keys sort_by w = (Return shown, w1))
    as (shown & w1 & Hres).
  { destruct Hkeys as [->|[Hkeys Hall]].
    - eexists _, _. by apply restrict_skipped.
    - destruct ks as [|k ks].
      + eexists _, _. apply restrict_skipped. by rewrite (truthy_listed _ _ _ Hkeys).
      + rewrite (restrict_given _ _ _ _ _ _ Hkeys).
        destruct (pluck_returns w keys items (k :: ks) ds "." (fun k => k)
                    Hkeys Hitems Hall) as (rows & _ & ->).
        by eexists _, _. }
  destruct (restrict_shows_list _ _ _ _ _ _ _ Hitems Hres) as (xs & Hxs & Hlen).
  rewrite print_table_run, Hres. unfold bind at 1.
  rewrite (render_run _ _ _ _ _ Hxs).
  destruct xs as [|x xs].
  - rewrite (report_run true _ _ []) by exact Hxs.
    eexists. split; [reflexivity|]. simpl. rewrite <- Hlen. apply last_snoc.
  - destruct (Htotal (heap w1) (fst shown) (snd shown)) as [t ->].
    rewrite (report_run true _ _ (x :: xs)) by exact Hxs.
    eexists. split; [reflexivity|]. cbn [stdout]. rewrite <- Hlen. apply last_snoc.
Qed.

Lemma print_table_counts_the_items_witness :
  exists w',
    print_table Sample.sorted_by (VRef 2) (VRef 1) (Some "zip") true
                Sample.acme_flat = (Return tt, w') /\
    last (stdout w') = Some ("Count: " +:+ pretty (length [VRef 0])).
Proof.
  apply (print_table_counts_the_items Sample.sorted_by (VRef 2) (VRef 1)
           ["name"; "city"] [VRef 0] (Some "zip") Sample.acme_flat).
  - intros h v s. by eexists.
  - reflexivity.
  - right. split; [reflexivity|]. intros d k Hd Hk.
    apply list_elem_of_singleton in Hd as ->.
    apply elem_of_cons in Hk as [->|Hk]; [eexists; reflexivity|].
    apply list_elem_of_singleton in Hk as ->. eexists; reflexivity.
Defined.

(** ** The option callback: what it returns and raises *)

Lemma validate_returns_inv options fields :
  validate options fields = Return tt -> Forall (fun f => f ∈ options) fields.
Proof.
  induction fields as [|f fields IH]; simpl; [constructor|].
  case_bool_decide as Hf; [|discriminate].
  intros Hv. constructor; [done | by apply IH].
Qed.

Lemma validate_raises_inv options fields e :
  validate options fields = Raise e ->
  exists f, f ∈ fields /\ (f ∉ options) /\ e = BadParameter (not_valid f options).
Proof.
  induction fields as [|f fields IH]; simpl; [discriminate|].
  case_bool_decide as Hf.
  - intros (f' & Hin & Hout & ->)%IH. exists f'.
    split; [by apply list_elem_of_further | done].
  - intros [= <-]. exists f. split; [apply list_elem_of_here | done].
Qed.

(** X9: the callback never returns a token that is not in [options]. *)
Theorem csv_callback_sound options all value fields :
  csv_callback options all value = Return fields ->
  Forall (fun f => f ∈ options) fields.
Proof.
  unfold csv_callback.
  destruct (parse options all value) as [fs|e]; [|discriminate].
  destruct (validate options fs) as [[]|e] eqn:Hv; [|discriminate].
  intros [= <-]. by apply validate_returns_inv.
Qed.

Lemma csv_callback_sound_witness :
  Forall (fun f => f ∈ ["a"; "b"; "c"]) ["c"; "a"].
Proof.
  exact (csv_callback_sound ["a"; "b"; "c"] None (Text " c ,a") ["c"; "a"] eq_refl).
Defined.

(** X10: no text makes the callback return an empty list, except
    ["all"] when [options] itself is empty: the pieces of a split are
    never none. *)
Theorem csv_callback_text_never_empty options all s :
  csv_callback options all (Text s) = Return [] ->
  s = "all" /\ options = [].
Proof.
  unfold csv_callback, parse.
  destruct (String.eqb s "all") eqn:Hs.
  - apply String.eqb_eq in Hs as ->.
    destruct (validate options (all_or all options)); [|discriminate].
    intros [= Hall]. split; [done|]. by destruct all as [[|x xs]|].
  - unfold PyStr.split.
    destruct (validate options _); [|discriminate].
    intros [= Hnil]. apply map_eq_nil in Hnil.
    by apply split_scan_nonempty in Hnil.
Qed.

Lemma csv_callback_text_never_empty_witness :
  "all" = "all" /\ @nil string = [].
Proof.
  exact (csv_callback_text_never_empty [] (Some []) "all" eq_refl).
Defined.

(** X11: but for the absent option, whose loop raises [TypeError], the
    callback raises nothing but [BadParameter], and the token its
    message names is one of the parsed tokens and is not in
    [options]. *)
Theorem csv_callback_raises_only options all value e :
  value <> Absent ->
  csv_callback options all value = Raise e ->
  exists fields f,
    parse options all value = Return fields /\
    f ∈ fields /\ (f ∉ options) /\
    e = BadParameter (not_valid f options).
Proof.
  intros Hvalue. unfold csv_callback.
  destruct (parse options all value) as [fields|e'] eqn:Hp.
  - destruct (validate options fields) as [[]|e1] eqn:Hv; [discriminate|].
    intros [= <-]. apply validate_raises_inv in Hv as (f & Hin & Hout & ->).
    by exists fields, f.
  - exfalso. destruct value as [s| |xs]; simpl in Hp; [|done|discriminate].
    destruct (String.eqb s "all"); discriminate.
Qed.

Lemma csv_callback_raises_only_witness :
  exists fields f,
    parse ["a"; "b"; "c"] None (Text "a,z") = Return fields /\
    f ∈ fields /\ (f ∉ ["a"; "b"; "c"]) /\
    BadParameter "'z' is not valid. Choose from a, b, c."
    = BadParameter (not_valid f ["a"; "b"; "c"]).
Proof.
  apply (csv_callback_raises_only ["a"; "b"; "c"] None (Text "a,z")).
  - discriminate.
  - reflexivity.
Defined.

(** ** The option callback: typing a list back *)

Lemma plain_char_inv c :
  plain_char c = true -> PyStr.is_space c = false /\ c <> ","%char.
Proof.
  unfold plain_char. intros [Hs Hc]%andb_true_iff.
  apply negb_true_iff in Hs. apply negb_true_iff in Hc.
  split; [done|]. by apply Ascii.eqb_neq.
Qed.

Lemma plain_cons c f :
  plain (String c f) = true -> plain_char c = true /\ plain f = true.
Proof. simpl. apply andb_true_iff. Qed.

Lemma split_scan_plain f :
  plain f = true ->
  forall s cur,
    PyStr.split_scan "," (f +:+ s) 0 cur = PyStr.split_scan "," s 0 (cur +:+ f).
Proof.
  induction f as [|x f IH]; intros Hf s cur.
  - change (EmptyString +:+ s) with s. by rewrite str_app_empty.
  - apply plain_cons in Hf as [Hx Hf]. apply plain_char_inv in Hx as [_ Hx].
    rewrite str_app_cons. cbn [PyStr.split_scan]. rewrite prefix_one.
    destruct (ascii_dec "," x) as [<-|_]; [done|].
    rewrite (IH Hf), str_app_assoc. by rewrite str_app_cons.
Qed.

Lemma split_scan_joined fs :
  forall f cur,
    Forall (fun f => plain f = true) (f :: fs) ->
    PyStr.split_scan "," (PyStr.join ", " (f :: fs)) 0 cur
    = (cur +:+ f) :: map (String " "%char) fs.
Proof.
  unfold PyStr.join.
  induction fs as [|g fs IH]; intros f cur Hplain.
  - apply Forall_cons in Hplain as [Hf _]. simpl String.concat.
    rewrite <- (str_app_empty f) at 1. by rewrite (split_scan_plain f Hf).
  - apply Forall_cons in Hplain as [Hf Hrest].
    rewrite str_concat_cons by discriminate.
    rewrite (split_scan_plain f Hf).
    change (", " +:+ String.concat ", " (g :: fs))
      with (String ","%char (String " "%char (String.concat ", " (g :: fs)))).
    cbn [PyStr.split_scan]. rewrite !prefix_one.
    destruct (ascii_dec "," ",") as [_|Hne]; [|done].
    simpl String.length. simpl Nat.sub. cbn [PyStr.split_scan].
    destruct (ascii_dec "," " ") as [Heq|_]; [discriminate|].
    by rewrite (IH g _ Hrest).
Qed.

Lemma rev_app_twice a :
  forall b c, String.rev_app (String.rev_app a b) c = String.rev_app b (a +:+ c).
Proof.
  induction a as [|x a IH]; intros b c; simpl; [done|].
  by rewrite IH.
Qed.

Lemma plain_rev_app a :
  forall b, plain (String.rev_app a b) = plain a && plain b.
Proof.
  induction a as [|x a IH]; intros b; simpl; [done|].
  rewrite IH. simpl. destruct (plain_char x), (plain a), (plain b); reflexivity.
Qed.

Lemma lstrip_plain f : plain f = true -> PyStr.lstrip f = f.
Proof.
  destruct f as [|c f]; [done|]. intros [Hc _]%plain_cons.
  apply plain_char_inv in Hc as [Hc _]. simpl. by rewrite Hc.
Qed.

Lemma strip_plain f : plain f = true -> PyStr.strip f = f.
Proof.
  intros Hf. unfold PyStr.strip, PyStr.rstrip. rewrite (lstrip_plain f Hf).
  rewrite lstrip_plain.
  - unfold String.rev. rewrite rev_app_twice. simpl. apply str_app_empty.
  - unfold String.rev. rewrite plain_rev_app, Hf. reflexivity.
Qed.

Lemma strip_padded f : plain f = true -> PyStr.strip (String " "%char f) = f.
Proof.
  intros Hf. rewrite <- (strip_plain f Hf) at 2. reflexivity.
Qed.

Lemma strip_all_padded fs :
  Forall (fun f => plain f = true) fs ->
  map PyStr.strip (map (String " "%char) fs) = fs.
Proof.
  induction 1 as [|g fs Hg _ IH]; simpl; [done|].
  by rewrite (strip_padded g Hg), IH.
Qed.

(** X12: a non-empty list of tokens of [options], each without
    whitespace and commas, joined by [", "] as the error message joins
    the choices, is resolved by the callback to that very list, unless
    the text reads ["all"]. *)
Theorem csv_callback_reads_joined options all fs :
  fs <> [] ->
  Forall (fun f => plain f = true) fs ->
  Forall (fun f => f ∈ options) fs ->
  PyStr.join ", " fs <> "all" ->
  csv_callback options all (Text (PyStr.join ", " fs)) = Return fs.
Proof.
  intros Hne Hplain Hin Hall.
  destruct fs as [|f fs]; [done|].
  apply csv_callback_accepts; [|done].
  unfold parse. apply String.eqb_neq in Hall. rewrite Hall.
  unfold PyStr.split. rewrite (split_scan_joined fs f EmptyString Hplain).
  change (EmptyString +:+ f) with f. simpl map. f_equal. f_equal.
  - apply strip_plain. by apply Forall_cons in Hplain as [Hf _].
  - apply strip_all_padded. by apply Forall_cons in Hplain as [_ Hfs].
Qed.

Lemma csv_callback_reads_joined_witness :
  csv_callback ["id"; "name"; "address.city"] (Some [])
               (Text (PyStr.join ", " ["id"; "name"; "address.city"]))
  = Return ["id"; "name"; "address.city"].
Proof.
  apply (csv_callback_reads_joined ["id"; "name"; "address.city"] (Some [])
           ["id"; "name"; "address.city"]).
  - discriminate.
  - repeat constructor.
  - repeat constructor.
  - discriminate.
Defined.

(** ** From the callback to [pluck] *)

(** X13: when every option resolves on every item, [pluck] on a key
    list that holds what the callback returned does return, with one row
    per item: a validated selection cannot fail on a missing
    attribute. *)
Theorem validated_fields_pluck options all value fields w keys items ds sep kf :
  csv_callback options all value = Return fields ->
  elements (heap w) keys = Return (map VStr fields) ->
  elements (heap w) items = Return ds ->
  (forall d k, d ∈ ds -> k ∈ options ->
               exists v, resolve (heap w) sep d k = Return v) ->
  exists r w' rows,
    pluck keys items sep kf w = (Return r, w') /\
    read_rows (heap w') r = Some rows /\
    length rows = length ds.
Proof.
  intros Hcsv Hkeys Hitems Hall.
  assert (Forall (fun f => f ∈ options) fields) as Hin.
  { unfold csv_callback in Hcsv.
    destruct (parse options all value) as [fs|e]; [|discriminate].
    destruct (validate options fs) as [[]|e] eqn:Hv; [|discriminate].
    injection Hcsv as <-. by apply validate_returns_inv. }
  destruct (pluck_returns w keys items fields ds sep kf Hkeys Hitems)
    as (rows & Hrows & Hrun).
  { intros d k Hd Hk. apply Hall; [done|].
    by apply (proj1 (Forall_forall _ _) Hin). }
  eexists _, _, rows. split; [exact Hrun|]. simpl.
  split; [apply read_rows_fresh|]. symmetry. by eapply Forall2_length.
Qed.

Lemma validated_fields_pluck_witness :
  exists r w' rows,
    pluck (VRef 1) (VRef 2) "." (fun k => k) Sample.acme_flat = (Return r, w') /\
    read_rows (heap w') r = Some rows /\
    length rows = 1.
Proof.
  apply (validated_fields_pluck ["id"; "name"; "city"; "zip"] None
           (Text "name, city") ["name"; "city"]
           Sample.acme_flat (VRef 1) (VRef 2) [VRef 0] "." (fun k => k)).
  - reflexivity.
  - reflexivity.
  - reflexivity.
  - intros d k Hd Hk. apply list_elem_of_singleton in Hd as ->.
    repeat (apply elem_of_cons in Hk as [->|Hk]; [eexists; reflexivity|]).
    by apply elem_of_nil in Hk.
Defined.

(** ** [pluck] in a store that has grown *)

Lemma getattr_grow h ext d k v :
  getattr h d k = Return v -> getattr (h ++ ext) d k = Return v.
Proof.
  unfold getattr. destruct d as [| | |l]; try discriminate.
  destruct (h !! l) as [o|] eqn:Hl; [|discriminate].
  by rewrite (lookup_app_l_Some _ _ _ _ Hl).
Qed.

Lemma reduce_getattr_grow h ext steps :
  forall d v,
    reduce (getattr h) steps d = Return v ->
    reduce (getattr (h ++ ext)) steps d = Return v.
Proof.
  induction steps as [|step steps IH]; intros d v; simpl; [done|].
  destruct (getattr h d step) as [u|e] eqn:Hg; [|discriminate].
  rewrite (getattr_grow _ ext _ _ _ Hg). apply IH.
Qed.

Lemma dict_comp_grow h ext sep kf d ks :
  forall acc es,
    dict_comp h sep kf d ks acc = Return es ->
    dict_comp (h ++ ext) sep kf d ks acc = Return es.
Proof.
  induction ks as [|k ks IH]; intros acc es; simpl; [done|].
  destruct k as [|n|s|l]; try discriminate.
  unfold resolve. destruct (PyStr.split s sep) as [steps|]; [|discriminate].
  destruct (reduce (getattr h) steps d) as [v|e] eqn:Hr; [|discriminate].
  rewrite (reduce_getattr_grow _ ext _ _ _ Hr). apply IH.
Qed.

Lemma project_grow h ext keys sep kf d es :
  project h keys sep kf d = Return es ->
  project (h ++ ext) keys sep kf d = Return es.
Proof.
  unfold project. destruct (elements h keys) as [ks|e] eqn:Hk; [|discriminate].
  rewrite (elements_grow _ ext _ _ Hk). apply dict_comp_grow.
Qed.

Lemma gather_grow h ext keys sep kf ds :
  forall rows,
    gather h keys sep kf ds = (rows, None) ->
    gather (h ++ ext) keys sep kf ds = (rows, None).
Proof.
  induction ds as [|d ds IH]; intros rows; simpl; [done|].
  destruct (project h keys sep kf d) as [es|e] eqn:Hd; [|discriminate].
  rewrite (project_grow _ ext _ _ _ _ _ Hd).
  destruct (gather h keys sep kf ds) as [rows' stop].
  intros [= <- ->]. by rewrite (IH rows').
Qed.

(** X14: a call of [pluck] that returns also returns, with equal rows
    in new objects, in any store obtained by adding objects to the one
    it started in; so does the same call made again after it. *)
Theorem pluck_again keys items sep kf w r w' :
  pluck keys items sep kf w = (Return r, w') ->
  exists rows,
    read_rows (heap w') r = Some rows /\
    (forall ext out,
        exists r2 w2,
          pluck keys items sep kf (World (heap w ++ ext) out) = (Return r2, w2) /\
          read_rows (heap w2) r2 = Some rows /\
          exists l2, r2 = VRef l2 /\ length (heap w ++ ext) <= l2) /\
    (exists r2 w2,
        pluck keys items sep kf w' = (Return r2, w2) /\
        read_rows (heap w2) r2 = Some rows /\
        r2 <> r).
Proof.
  intros Hrun.
  destruct (pluck_returned _ _ _ _ _ _ _ Hrun) as (ds & rows & Hitems & Hg & Hread).
  exists rows. split; [done|].
  assert (forall ext out,
             pluck keys items sep kf (World (heap w ++ ext) out)
             = (Return (VRef (length (heap w ++ ext) + length rows)),
                World ((heap w ++ ext) ++ map PyDict rows
                         ++ [PyList (map VRef (seq (length (heap w ++ ext))
                                                   (length rows)))]) out))
    as Hgrown.
  { intros ext out. rewrite pluck_run. simpl.
    by rewrite (elements_grow _ ext _ _ Hitems), (gather_grow _ ext _ _ _ _ _ Hg). }
  split.
  - intros ext out. eexists _, _. split; [apply Hgrown|]. simpl.
    split; [apply read_rows_fresh|]. eexists. split; [done | lia].
  - rewrite pluck_run, Hitems, Hg in Hrun. injection Hrun as <- <-.
    eexists _, _. split; [apply Hgrown|]. simpl.
    split; [apply read_rows_fresh|].
    intros [= Heq]. rewrite !length_app, length_map in Heq. simpl in Heq. lia.
Qed.

Lemma pluck_again_witness :
  exists rows,
    read_rows
      (heap Sample.acme ++
         [PyDict [("name", VStr "Acme"); ("address.city", VStr "Austin")];
          PyList [VRef 4]])
      (VRef 5) = Some rows /\
    exists r2 w2,
      pluck (VRef 2) (VRef 3) "." (fun k => k)
            (World (heap Sample.acme ++
                      [PyDict [("name", VStr "Acme"); ("address.city", VStr "Austin")];
                       PyList [VRef 4]]) [])
      = (Return r2, w2) /\
      read_rows (heap w2) r2 = Some rows /\
      r2 <> VRef 5.
Proof.
  destruct (pluck_again (VRef 2) (VRef 3) "." (fun k => k) Sample.acme (VRef 5)
              (World (heap Sample.acme ++
                        [PyDict [("name", VStr "Acme"); ("address.city", VStr "Austin")];
                         PyList [VRef 4]]) []) eq_refl)
    as (rows & Hread & _ & Hagain).
  exists rows. split; [exact Hread | exact Hagain].
Defined.
